(** * Record deduplication and reference resolution of cloud_infra_drift_slr

    A shallow embedding of [scripts/deduplicate_papers.py] and of the
    reference resolver of [scripts/build_website.py], with the theorems that
    settle the claims of the specification.

    Conventions of the embedding.
    - A Python [str] is a [string]: a sequence of code points below 256
      (the Latin-1 range).  The character classes and [str.lower] below are
      those of CPython on these code points, where [str.lower] maps
      character by character.  The title search of the resolver, which
      looks for two code points outside this range, is modelled on texts
      of any code points as well (module [Titles]).
    - A value that is a [str] or [None] (a missing or null JSON field) is an
      [option string].
    - A Python [float] that the code builds as a quotient of two integers is
      the exact rational, in lowest terms, and [>=] on floats is [Qle_bool].
      Python rounds the quotient [2.0 * M / T] to the nearest double; its
      comparisons with 0.85, 0.95 and 0.5 have the outcome of the exact
      ones as long as [T], the total length of two titles, is below 2^48.
    - An exception is the [Raise] constructor of [result]. *)

From Stdlib Require Import Strings.String Strings.Ascii Lists.List.
From Stdlib Require Import Arith.PeanoNat Arith.Arith Bool.Bool micromega.Lia.
From Stdlib Require Import ZArith.ZArith QArith.QArith QArith.Qreduction.
From Stdlib Require Import Numbers.DecimalString Sorting.Permutation.
Import ListNotations.

Open Scope string_scope.
Open Scope list_scope.
Open Scope nat_scope.

(* ================================================================== *)
(** * Python built-ins used by the two scripts *)
(* ================================================================== *)

Module Py.

(** Code point of a character. *)
Definition code (c : ascii) : nat := nat_of_ascii c.

Definition between (lo hi n : nat) : bool := (lo <=? n) && (n <=? hi).

(** [str.isspace] on one character; also the regular expression class
    [\s] of a [str] pattern: TAB..CR, FS..US, SPACE, NEL and NBSP. *)
Definition isspace (c : ascii) : bool :=
  let n := code c in
  between 9 13 n || between 28 32 n || (n =? 133) || (n =? 160).

Definition isalpha (c : ascii) : bool :=
  let n := code c in
  between 65 90 n || between 97 122 n || (n =? 170) || (n =? 181)
  || (n =? 186) || between 192 214 n || between 216 246 n
  || between 248 255 n.

(** [str.isdecimal] on one character; also the class [\d]. *)
Definition isdecimal (c : ascii) : bool := between 48 57 (code c).

(** [str.isdigit] on one character: the decimal digits and the
    superscripts U+00B2, U+00B3 and U+00B9. *)
Definition isdigit_char (c : ascii) : bool :=
  let n := code c in
  isdecimal c || between 178 179 n || (n =? 185).

(** [str.isnumeric] on one character: adds the vulgar fractions. *)
Definition isnumeric (c : ascii) : bool :=
  isdigit_char c || between 188 190 (code c).

Definition isalnum (c : ascii) : bool :=
  isalpha c || isdecimal c || isdigit_char c || isnumeric c.

(** The class [\w] of a [str] pattern: alphanumeric or underscore. *)
Definition is_word (c : ascii) : bool := isalnum c || (code c =? 95).

(** [str.lower] on one character. *)
Definition lower_char (c : ascii) : ascii :=
  let n := code c in
  if between 65 90 n || between 192 214 n || between 216 222 n
  then ascii_of_nat (n + 32) else c.

Fixpoint lower (s : string) : string :=
  match s with
  | EmptyString => EmptyString
  | String c r => String (lower_char c) (lower r)
  end.

(** Truth value of a [str]. *)
Definition nonempty (s : string) : bool :=
  match s with EmptyString => false | String _ _ => true end.

(** Truth value of a [str]-or-[None]. *)
Definition truthy (v : option string) : bool :=
  match v with None => false | Some s => nonempty s end.

Fixpoint lstrip (s : string) : string :=
  match s with
  | EmptyString => EmptyString
  | String c r => if isspace c then lstrip r else s
  end.

Fixpoint rstrip (s : string) : string :=
  match s with
  | EmptyString => EmptyString
  | String c r =>
      let r' := rstrip r in
      if isspace c && negb (nonempty r') then EmptyString else String c r'
  end.

(** [s.strip()] *)
Definition strip (s : string) : string := rstrip (lstrip s).

(** [sub in s] on strings. *)
Fixpoint contains (sub s : string) : bool :=
  prefix sub s ||
  match s with
  | EmptyString => false
  | String _ r => contains sub r
  end.

(** [s.split(sep)] for a one-character separator. *)
Fixpoint split (sep : ascii) (s : string) : list string :=
  match s with
  | EmptyString => [EmptyString]
  | String c r =>
      if Ascii.eqb c sep then EmptyString :: split sep r
      else match split sep r with
           | x :: xs => String c x :: xs
           | [] => [String c EmptyString]
           end
  end.

(** [sorted] on a list of strings (code-point order), by insertion. *)
Fixpoint insert_sorted (x : string) (l : list string) : list string :=
  match l with
  | [] => [x]
  | y :: r => if String.leb x y then x :: l else y :: insert_sorted x r
  end.

Definition sorted (l : list string) : list string :=
  fold_right insert_sorted [] l.

(** [s.isdigit()]: at least one character, all of them digits. *)
Fixpoint all_chars (p : ascii -> bool) (s : string) : bool :=
  match s with
  | EmptyString => true
  | String c r => p c && all_chars p r
  end.

Definition isdigit (s : string) : bool := nonempty s && all_chars isdigit_char s.

(** [int(s)] where the code calls it: on a non-empty string of [isdigit]
    characters.  The value for decimal digits; [None] stands for the
    [ValueError] that [int] raises on a superscript digit. *)
Fixpoint int_acc (acc : nat) (s : string) : option nat :=
  match s with
  | EmptyString => Some acc
  | String c r =>
      if isdecimal c then int_acc (10 * acc + (code c - 48)) r else None
  end.

Definition int (s : string) : option nat :=
  if nonempty s then int_acc 0 s else None.

(** [re.sub(r'[^\w\s]', ' ', s)] *)
Fixpoint sub_nonword_nonspace (s : string) : string :=
  match s with
  | EmptyString => EmptyString
  | String c r =>
      String (if is_word c || isspace c then c else " "%char)
             (sub_nonword_nonspace r)
  end.

(** [re.sub(r'\s+', ' ', s)]: every maximal run of whitespace becomes one
    space.  [in_run] tells that the previous character was whitespace. *)
Fixpoint sub_spaces_from (in_run : bool) (s : string) : string :=
  match s with
  | EmptyString => EmptyString
  | String c r =>
      if isspace c
      then if in_run then sub_spaces_from true r
           else String " "%char (sub_spaces_from true r)
      else String c (sub_spaces_from false r)
  end.

Definition sub_spaces (s : string) : string := sub_spaces_from false s.

(** [re.split(r"\W+", s)]: the pieces between the maximal runs of non-word
    characters, with the empty pieces at both ends. *)
Definition starts_nonword (s : string) : bool :=
  match s with
  | EmptyString => false
  | String c _ => negb (is_word c)
  end.

Fixpoint split_nonword (s : string) : list string :=
  match s with
  | EmptyString => [EmptyString]
  | String c r =>
      if is_word c
      then match split_nonword r with
           | x :: xs => String c x :: xs
           | [] => [String c EmptyString]
           end
      else if starts_nonword r then split_nonword r
           else EmptyString :: split_nonword r
  end.

(** The longest prefix without the character [q], and what follows. *)
Fixpoint span_until (q : ascii) (s : string) : string * string :=
  match s with
  | EmptyString => (EmptyString, EmptyString)
  | String c r =>
      if Ascii.eqb c q then (EmptyString, s)
      else let '(run, rest) := span_until q r in (String c run, rest)
  end.

(** Group 1 of [re.search(q + "([^" + q + "]+)" + q, s)] for a
    one-character delimiter [q]: the leftmost [q] that is followed by a
    non-empty run of other characters and a closing [q]. *)
Fixpoint search_quoted (q : ascii) (s : string) : option string :=
  match s with
  | EmptyString => None
  | String c r =>
      if Ascii.eqb c q
      then let '(run, rest) := span_until q r in
           if nonempty run && nonempty rest then Some run
           else search_quoted q r
      else search_quoted q r
  end.

(** A [dict], in insertion order; the keys are distinct. *)
Section Dict.
Context {K V : Type} (eqb : K -> K -> bool).

Fixpoint dict_get (k : K) (d : list (K * V)) : option V :=
  match d with
  | [] => None
  | (k', v) :: r => if eqb k k' then Some v else dict_get k r
  end.

(** [d[k] = v]: in place when the key exists, appended otherwise. *)
Fixpoint dict_set (k : K) (v : V) (d : list (K * V)) : list (K * V) :=
  match d with
  | [] => [(k, v)]
  | (k', v') :: r =>
      if eqb k k' then (k, v) :: r else (k', v') :: dict_set k v r
  end.
End Dict.

(** Exceptions. *)
Inductive exn : Type := ValueError.

Inductive result (A : Type) : Type :=
| Ok (a : A)
| Raise (e : exn).
Arguments Ok {A} a.
Arguments Raise {A} e.

End Py.

(* ================================================================== *)
(** * [difflib.SequenceMatcher(None, a, b)], as far as [ratio()] uses it *)
(* ================================================================== *)

Module Difflib.
Import Py.

(** A [Match(a, b, size)]. *)
Definition Match : Type := (nat * nat * nat)%type.

Definition size_of (m : Match) : nat := snd m.

(** ** [__chain_b]: the positions of every element of [b] *)

Definition b2j_append (elt : ascii) (i : nat)
    (b2j : list (ascii * list nat)) : list (ascii * list nat) :=
  match dict_get Ascii.eqb elt b2j with
  | Some indices => dict_set Ascii.eqb elt (indices ++ [i]) b2j
  | None => dict_set Ascii.eqb elt [i] b2j
  end.

Fixpoint chain_loop (i : nat) (b : list ascii)
    (b2j : list (ascii * list nat)) : list (ascii * list nat) :=
  match b with
  | [] => b2j
  | elt :: r => chain_loop (S i) r (b2j_append elt i b2j)
  end.

(** With [isjunk = None] no element is junk; with [autojunk] and
    [len(b) >= 200] the elements that occur more than [n // 100 + 1]
    times are purged. *)
Definition chain_b (b : list ascii) : list (ascii * list nat) :=
  let b2j := chain_loop 0 b [] in
  let n := length b in
  if 200 <=? n then
    let ntest := n / 100 + 1 in
    filter (fun '(_, idxs) => negb (ntest <? length idxs)) b2j
  else b2j.

Section Matcher.
Variables a b : list ascii.
Variable b2j : list (ascii * list nat).

(** [b2j.get(elt, nothing)] *)
Definition b2j_get (elt : ascii) : list nat :=
  match dict_get Ascii.eqb elt b2j with
  | Some indices => indices
  | None => []
  end.

(** [j2lenget(j-1, 0)] *)
Definition j2len_prev (j2len : list (nat * nat)) (j : nat) : nat :=
  match j with
  | 0 => 0
  | S j' => match dict_get Nat.eqb j' j2len with
            | Some k => k
            | None => 0
            end
  end.

(** The loop [for j in b2j.get(a[i], nothing)], with its [continue] and
    its [break].  [i - k + 1] is written [i + 1 - k]; [k <= i + 1]. *)
Fixpoint scan_row (i blo bhi : nat) (j2len : list (nat * nat))
    (js : list nat) (newj2len : list (nat * nat)) (best : Match)
    : list (nat * nat) * Match :=
  match js with
  | [] => (newj2len, best)
  | j :: js' =>
      if j <? blo then scan_row i blo bhi j2len js' newj2len best
      else if bhi <=? j then (newj2len, best)
      else
        let k := j2len_prev j2len j + 1 in
        let best' :=
          if snd best <? k then (i + 1 - k, j + 1 - k, k) else best in
        scan_row i blo bhi j2len js' (dict_set Nat.eqb j k newj2len) best'
  end.

(** The loop [for i in range(alo, ahi)], [n] rows from row [i] on. *)
Fixpoint scan_rows (n i blo bhi : nat) (j2len : list (nat * nat))
    (best : Match) : Match :=
  match n with
  | 0 => best
  | S n' =>
      let '(newj2len, best') :=
        scan_row i blo bhi j2len (b2j_get (nth i a zero)) [] best in
      scan_rows n' (S i) blo bhi newj2len best'
  end.

(** The first [while]: extend the match to the left.  No element is
    junk, so [not isbjunk(...)] holds. *)
Fixpoint extend_left (alo blo besti bestj bestsize : nat) : Match :=
  match besti with
  | 0 => (besti, bestj, bestsize)
  | S i' =>
      if (alo <? besti) && (blo <? bestj)
         && Ascii.eqb (nth i' a zero) (nth (bestj - 1) b zero)
      then extend_left alo blo i' (bestj - 1) (bestsize + 1)
      else (besti, bestj, bestsize)
  end.

(** The second [while]: extend the match to the right; it runs at most
    [ahi - (besti + bestsize)] times, the bound [n]. *)
Fixpoint extend_right (n ahi bhi besti bestj bestsize : nat) : nat :=
  match n with
  | 0 => bestsize
  | S n' =>
      if (besti + bestsize <? ahi) && (bestj + bestsize <? bhi)
         && Ascii.eqb (nth (besti + bestsize) a zero)
                      (nth (bestj + bestsize) b zero)
      then extend_right n' ahi bhi besti bestj (bestsize + 1)
      else bestsize
  end.

(** [find_longest_match(alo, ahi, blo, bhi)].  The last two [while]
    loops of the source extend over junk only and never run here. *)
Definition find_longest_match (alo ahi blo bhi : nat) : Match :=
  let '(besti, bestj, bestsize) :=
    scan_rows (ahi - alo) alo blo bhi [] (alo, blo, 0) in
  let '(besti, bestj, bestsize) :=
    extend_left alo blo besti bestj bestsize in
  (besti, bestj,
   extend_right (ahi - (besti + bestsize)) ahi bhi besti bestj bestsize).

(** The [while queue:] loop of [get_matching_blocks].  The head of
    [queue] is its last element, the one [pop()] takes. *)
Fixpoint blocks_loop (fuel : nat) (queue : list (nat * nat * nat * nat))
    (matching_blocks : list Match) : list Match :=
  match fuel with
  | 0 => matching_blocks
  | S fuel' =>
      match queue with
      | [] => matching_blocks
      | (alo, ahi, blo, bhi) :: queue =>
          let '(i, j, k) := find_longest_match alo ahi blo bhi in
          if k =? 0 then blocks_loop fuel' queue matching_blocks
          else
            let queue :=
              if (alo <? i) && (blo <? j)
              then (alo, i, blo, j) :: queue else queue in
            let queue :=
              if (i + k <? ahi) && (j + k <? bhi)
              then (i + k, ahi, j + k, bhi) :: queue else queue in
            blocks_loop fuel' queue (matching_blocks ++ [(i, j, k)])
      end
  end.
End Matcher.

(** Order of tuples, for [matching_blocks.sort()]. *)
Definition match_leb (x y : Match) : bool :=
  let '(i1, j1, k1) := x in
  let '(i2, j2, k2) := y in
  (i1 <? i2) || ((i1 =? i2) && ((j1 <? j2) || ((j1 =? j2) && (k1 <=? k2)))).

Fixpoint insert_match (x : Match) (l : list Match) : list Match :=
  match l with
  | [] => [x]
  | y :: r => if match_leb x y then x :: l else y :: insert_match x r
  end.

Definition sort_matches (l : list Match) : list Match :=
  fold_right insert_match [] l.

(** The loop that merges adjacent equal blocks. *)
Fixpoint collapse (i1 j1 k1 : nat) (blocks : list Match) : list Match :=
  match blocks with
  | [] => if k1 =? 0 then [] else [(i1, j1, k1)]
  | (i2, j2, k2) :: r =>
      if (i1 + k1 =? i2) && (j1 + k1 =? j2)
      then collapse i1 j1 (k1 + k2) r
      else (if k1 =? 0 then [] else [(i1, j1, k1)]) ++ collapse i2 j2 k2 r
  end.

(** A pop removes one queue entry and a match splits a range of [a] in at
    most two strictly shorter ones, so the loop runs at most
    [2 * len(a) + 1] times. *)
Definition blocks_fuel (a : list ascii) : nat := 2 * length a + 2.

Definition get_matching_blocks (a b : list ascii) : list Match :=
  let la := length a in
  let lb := length b in
  let b2j := chain_b b in
  let matching_blocks :=
    blocks_loop a b b2j (blocks_fuel a) [(0, la, 0, lb)] [] in
  collapse 0 0 0 (sort_matches matching_blocks) ++ [(la, lb, 0)].

(** [_calculate_ratio(matches, length)] *)
Definition calculate_ratio (matches length : nat) : Q :=
  if length =? 0 then 1%Q
  else Qred (Z.of_nat (2 * matches) # Pos.of_nat length).

(** [SequenceMatcher(None, a, b).ratio()] *)
Definition ratio (a b : string) : Q :=
  let a := list_ascii_of_string a in
  let b := list_ascii_of_string b in
  let matches := list_sum (map size_of (get_matching_blocks a b)) in
  calculate_ratio matches (length a + length b).

End Difflib.

(* ================================================================== *)
(** * [scripts/deduplicate_papers.py] *)
(* ================================================================== *)

Module Dedup.
Import Py Difflib.

(** An entry of a record's ['authors'] list: a dict, of which only
    [author.get('name', '')] is read, or a plain name. *)
Inductive author : Type :=
| AuthorDict (name : option string)
| AuthorName (s : string).

(** A bibliographic record: the three keys that the classifier reads.
    [None] is a missing key or a null; a missing or null ['authors'] is
    the empty list. *)
Record paper : Type := Paper {
  doi : option string;
  title : option string;
  authors : list author
}.

Definition normalize_string (s : option string) : string :=
  match s with
  | None => ""
  | Some s =>
      if negb (nonempty s) then ""
      else strip (sub_spaces (sub_nonword_nonspace (lower s)))
  end.

Definition author_name (a : author) : option string :=
  match a with
  | AuthorDict name => name
  | AuthorName s => Some s
  end.

Fixpoint author_names (authors : list author) : list string :=
  match authors with
  | [] => []
  | a :: r =>
      let name := author_name a in
      if truthy name then normalize_string name :: author_names r
      else author_names r
  end.

Definition normalize_authors (authors : list author) : string :=
  match authors with
  | [] => ""
  | _ => String.concat "|" (sorted (author_names authors))
  end.

Definition title_similarity (title1 title2 : option string) : Q :=
  let t1 := normalize_string title1 in
  let t2 := normalize_string title2 in
  if negb (nonempty t1) || negb (nonempty t2) then 0%Q
  else ratio t1 t2.

(** [paper.get('doi', '').strip().lower() if paper.get('doi') else ''] *)
Definition doi_key (p : paper) : string :=
  match doi p with
  | Some d => if nonempty d then lower (strip d) else ""
  | None => ""
  end.

(** [set(authors.split('|'))] as a list without repetition. *)
Definition author_set (authors : string) : list string :=
  nodup string_dec (split "|"%char authors).

(** [len(auth1_set & auth2_set)] *)
Definition overlap_count (s1 s2 : list string) : nat :=
  length (filter (fun x => if in_dec string_dec x s2 then true else false) s1).

(** [x / y] on two [int]s, [y] positive. *)
Definition true_div (x y : nat) : Q := Z.of_nat x # Pos.of_nat y.

Definition default_threshold : Q := 17 # 20.   (* 0.85 *)

Definition are_duplicates (paper1 paper2 : paper)
    (similarity_threshold : Q) : bool :=
  let doi1 := doi_key paper1 in
  let doi2 := doi_key paper2 in
  if nonempty doi1 && nonempty doi2 && (doi1 =? doi2)%string then true
  else
    let title1 := title paper1 in
    let title2 := title paper2 in
    if negb (truthy title1) || negb (truthy title2) then false
    else
      let sim := title_similarity title1 title2 in
      if Qle_bool similarity_threshold sim then
        let authors1 := normalize_authors (authors paper1) in
        let authors2 := normalize_authors (authors paper2) in
        if nonempty authors1 && nonempty authors2 then
          let auth1_set := author_set authors1 in
          let auth2_set := author_set authors2 in
          match auth1_set, auth2_set with
          | _ :: _, _ :: _ =>
              let overlap := overlap_count auth1_set auth2_set in
              let min_authors :=
                Nat.min (length auth1_set) (length auth2_set) in
              if Qle_bool (1 # 2) (true_div overlap min_authors) then true
              else false
          | _, _ => false
          end
        else if Qle_bool (19 # 20) sim then true
        else false
      else false.

(** The inner loop of [deduplicate_papers]: the scan of [unique_papers]
    that stops at the first duplicate. *)
Fixpoint check_unique (paper0 : paper) (unique_papers : list paper)
    (duplicate_count : nat) : bool * nat :=
  match unique_papers with
  | [] => (false, duplicate_count)
  | unique_paper :: r =>
      if are_duplicates paper0 unique_paper default_threshold
      then (true, duplicate_count + 1)
      else check_unique paper0 r duplicate_count
  end.

(** The outer loop, from the state [(unique_papers, duplicate_count)]. *)
Fixpoint dedup_loop (all_papers unique_papers : list paper)
    (duplicate_count : nat) : list paper * nat :=
  match all_papers with
  | [] => (unique_papers, duplicate_count)
  | paper0 :: r =>
      let '(is_duplicate, duplicate_count) :=
        check_unique paper0 unique_papers duplicate_count in
      if is_duplicate then dedup_loop r unique_papers duplicate_count
      else dedup_loop r (unique_papers ++ [paper0]) duplicate_count
  end.

Definition deduplicate_papers (all_papers : list paper)
    : list paper * nat :=
  dedup_loop all_papers [] 0.

(** ** The normalizer in the words of the specification *)

(** Replace what [keep] rejects by a space, lowercase, collapse the
    whitespace, trim. *)
Fixpoint replace_unless (keep : ascii -> bool) (s : string) : string :=
  match s with
  | EmptyString => EmptyString
  | String c r =>
      String (if keep c then c else " "%char) (replace_unless keep r)
  end.

Definition normalize_by (keep : ascii -> bool) (s : option string)
    : string :=
  match s with
  | None => ""
  | Some s => strip (sub_spaces (lower (replace_unless keep s)))
  end.

(** The same steps with the lowercasing first: lowercase, replace what
    [keep] rejects by a space, collapse the whitespace, trim. *)
Definition normalize_lowered_by (keep : ascii -> bool) (s : option string)
    : string :=
  match s with
  | None => ""
  | Some s => strip (sub_spaces (replace_unless keep (lower s)))
  end.

(** "not a letter, digit, or whitespace" *)
Definition letter_digit_space (c : ascii) : bool :=
  isalpha c || isdigit_char c || isspace c.

(** The same with the word characters of the regular expression: the
    alphanumeric characters and the underscore. *)
Definition word_or_space (c : ascii) : bool := is_word c || isspace c.

(** The identifier match of the classifier: both identifiers are true
    after trimming and lowercasing, and equal. *)
Definition identifier_match (paper1 paper2 : paper) : bool :=
  nonempty (doi_key paper1) && nonempty (doi_key paper2)
  && (doi_key paper1 =? doi_key paper2)%string.

(** "lacks a title": the field is absent or empty. *)
Definition lacks_title (p : paper) : bool := negb (truthy (title p)).

(** "no author information": the set of the normalized names of the
    record, the empty ones discarded, is empty; that is, no entry of the
    list has a name with a non-empty normalized form. *)
Definition no_author_info (p : paper) : bool :=
  forallb (fun a => negb (nonempty (normalize_string (author_name a))))
          (authors p).

(** The test of the code for the same: the joined author string is
    empty. *)
Definition no_author_string (p : paper) : bool :=
  negb (nonempty (normalize_authors (authors p))).

End Dedup.

(* ================================================================== *)
(** * The reference resolver of [scripts/build_website.py] *)
(* ================================================================== *)

Module Website.
Import Py.

(** A row of [csv.DictReader]: column name to cell.  Every cell is a
    [str]: the rows are as long as the header. *)
Definition row : Type := list (string * string).

(** [row.get(key, "")] *)
Definition row_get (key : string) (r : row) : string :=
  match dict_get String.eqb key r with
  | Some v => v
  | None => ""
  end.

(** The PDF map: paper number to file name, in insertion order. *)
Definition pdf_map : Type := list (nat * string).

Definition dquote : ascii := ascii_of_nat 34.

(** ** [load_pdf_map], from the listing of the PDF directory *)

Fixpoint span_decimal (s : string) : string * string :=
  match s with
  | EmptyString => (EmptyString, EmptyString)
  | String c r =>
      if isdecimal c
      then let '(ds, rest) := span_decimal r in (String c ds, rest)
      else (EmptyString, s)
  end.

(** [int(match.group(1))] for [re.match(r"^(\d+)-", f)] *)
Definition leading_number (f : string) : option nat :=
  let '(ds, rest) := span_decimal f in
  if nonempty ds && prefix "-" rest then int ds else None.

Definition endswith (suffix s : string) : bool :=
  (String.length suffix <=? String.length s)
  && (substring (String.length s - String.length suffix)
                (String.length suffix) s =? suffix)%string.

Fixpoint load_pdf_loop (listing : list string) (m : pdf_map) : pdf_map :=
  match listing with
  | [] => m
  | f :: r =>
      if endswith ".pdf" (lower f)
      then match leading_number f with
           | Some num => load_pdf_loop r (dict_set Nat.eqb num f m)
           | None => load_pdf_loop r m
           end
      else load_pdf_loop r m
  end.

Definition load_pdf_map (listing : list string) : pdf_map :=
  load_pdf_loop listing [].

(** ** The body of the loop over the references *)

(** The quoted title of a reference.  The first search of the source is
    for a title in curly quotes (U+201C, U+201D); these are not code
    points of a [string], so that search has no match and the title is the
    one between straight quotes.  Both searches are in
    [Titles.title_match_text], of which this is the restriction to
    strings (lemma [title_match_codes]). *)
Definition title_match (ref_text : string) : option string :=
  search_quoted dquote ref_text.

(** The test of the higher-priority pool: containment in either
    direction, case-insensitive. *)
Definition included_test (search_title : string) (r : row) : bool :=
  contains (lower search_title) (lower (row_get "Title" r))
  || contains (lower (row_get "Title" r)) (lower search_title).

(** The loop over [included_papers]; [target_pdf] is [None] before it. *)
Fixpoint scan_included (search_title : string) (m : pdf_map)
    (included_papers : list row) : result (option string) :=
  match included_papers with
  | [] => Ok None
  | r :: rest =>
      if included_test search_title r then
        let p_num_str := strip (row_get "Paper Number" r) in
        if nonempty p_num_str && isdigit p_num_str then
          match int p_num_str with
          | None => Raise ValueError
          | Some p_num =>
              match dict_get Nat.eqb p_num m with
              | Some f => Ok (Some f)
              | None => scan_included search_title m rest
              end
          end
        else scan_included search_title m rest
      else scan_included search_title m rest
  end.

(** The loop over [csv_papers]: its body is [pass]. *)
Fixpoint scan_csv (search_title : string) (csv_papers : list row)
    (target_pdf : option string) : option string :=
  match csv_papers with
  | [] => target_pdf
  | r :: rest =>
      if contains (lower search_title) (lower (row_get "Paper Title" r))
      then scan_csv search_title rest target_pdf
      else scan_csv search_title rest target_pdf
  end.

(** [[w for w in re.split(r"\W+", title) if len(w) > 4]] *)
Definition title_tokens (search_title : string) : list string :=
  filter (fun w => 4 <? String.length w) (split_nonword search_title).

(** [sum(1 for t in title_tokens if t.lower() in p_file.lower())] *)
Definition score (tokens : list string) (p_file : string) : nat :=
  length (filter (fun t => contains (lower t) (lower p_file)) tokens).

(** The loop over [pdf_map.items()]. *)
Fixpoint best_loop (tokens : list string) (items : pdf_map)
    (best_score : nat) (target_pdf : option string) : option string :=
  match items with
  | [] => target_pdf
  | (_, p_file) :: rest =>
      let sc := score tokens p_file in
      if (best_score <? sc) && (2 <=? sc)
      then best_loop tokens rest sc (Some p_file)
      else best_loop tokens rest best_score target_pdf
  end.

(** Steps 1 and 2: the two pools. *)
Definition structural (title : option string)
    (included_papers csv_papers : list row) (m : pdf_map)
    : result (option string) :=
  match title with
  | None => Ok None
  | Some search_title =>
      match scan_included search_title m included_papers with
      | Raise e => Raise e
      | Ok target_pdf =>
          if negb (truthy target_pdf)
          then Ok (scan_csv search_title csv_papers target_pdf)
          else Ok target_pdf
      end
  end.

(** Step 3: the search of the file names. *)
Definition fallback (title : option string) (m : pdf_map)
    (target_pdf : option string) : option string :=
  if negb (truthy target_pdf) then
    match title with
    | Some search_title =>
        best_loop (title_tokens search_title) m 0 target_pdf
    | None => target_pdf
    end
  else target_pdf.

(** The value of [target_pdf] at the end of the loop body, from the
    result of the title search. *)
Definition resolve_title (title : option string)
    (included_papers csv_papers : list row) (m : pdf_map)
    : result (option string) :=
  match structural title included_papers csv_papers m with
  | Raise e => Raise e
  | Ok target_pdf => Ok (fallback title m target_pdf)
  end.

Definition resolve_reference (ref_text : string)
    (included_papers csv_papers : list row) (m : pdf_map)
    : result (option string) :=
  resolve_title (title_match ref_text) included_papers csv_papers m.

(** The loop over [ref_entries] that fills [ref_link_map]: a reference is
    linked when its [target_pdf] is true. *)
Fixpoint load_reference_loop (ref_entries : list (string * string))
    (included_papers csv_papers : list row) (m : pdf_map)
    (ref_link_map : list (string * string))
    : result (list (string * string)) :=
  match ref_entries with
  | [] => Ok ref_link_map
  | (ref_id, ref_text) :: rest =>
      match resolve_reference ref_text included_papers csv_papers m with
      | Raise e => Raise e
      | Ok target_pdf =>
          load_reference_loop rest included_papers csv_papers m
            (match target_pdf with
             | Some f =>
                 if nonempty f
                 then dict_set String.eqb ref_id
                        ("paper_for_full_text_review/" ++ f)%string
                        ref_link_map
                 else ref_link_map
             | None => ref_link_map
             end)
      end
  end.

(** ** Vocabulary of the claims *)

(** The outcome of one row of the higher-priority pool. *)
Inductive row_outcome : Type :=
| Hit (f : string)      (* the row names a document of the PDF map *)
| Miss                  (* the loop goes on to the next row *)
| Fails.                (* [int] raises on the paper number *)

Definition included_row (search_title : string) (m : pdf_map) (r : row)
    : row_outcome :=
  if included_test search_title r then
    let p_num_str := strip (row_get "Paper Number" r) in
    if nonempty p_num_str && isdigit p_num_str then
      match int p_num_str with
      | None => Fails
      | Some p_num =>
          match dict_get Nat.eqb p_num m with
          | Some f => Hit f
          | None => Miss
          end
      end
    else Miss
  else Miss.

(** The test of the secondary pool in both directions, on the column
    that the secondary pool has. *)
Definition csv_test (search_title : string) (r : row) : bool :=
  contains (lower search_title) (lower (row_get "Paper Title" r))
  || contains (lower (row_get "Paper Title" r)) (lower search_title).

(** The largest score of the pool. *)
Definition max_score (tokens : list string) (m : pdf_map) : nat :=
  fold_right (fun e acc => Nat.max (score tokens (snd e)) acc) 0 m.

(** The first document of the pool with the score [sc]. *)
Fixpoint first_with_score (tokens : list string) (sc : nat) (m : pdf_map)
    : option string :=
  match m with
  | [] => None
  | (_, p_file) :: rest =>
      if score tokens p_file =? sc then Some p_file
      else first_with_score tokens sc rest
  end.

(** File names of a PDF map are not empty. *)
Definition names_nonempty (m : pdf_map) : Prop :=
  forall n f, In (n, f) m -> f <> "".

(** ** The file-name search in the words of the specification *)

(** The words of a title: its maximal runs of word characters, from left
    to right.  [cur] is the run read so far. *)
Fixpoint words_from (cur : string) (s : string) : list string :=
  match s with
  | EmptyString => if nonempty cur then [cur] else []
  | String c r =>
      if is_word c then words_from (cur ++ String c EmptyString)%string r
      else if nonempty cur then cur :: words_from EmptyString r
           else words_from EmptyString r
  end.

(** "tokens longer than 4 characters" *)
Definition long_words (title : string) : list string :=
  filter (fun w => 4 <? String.length w) (words_from EmptyString title).

(** [x] occurs in [y] as a substring. *)
Definition occurs_in (x y : string) : Prop :=
  exists pre post : string, y = (pre ++ x ++ post)%string.

(** "occurs as a case-insensitive substring of the searchable text" *)
Definition occurs_nocase (text token : string) : Prop :=
  occurs_in (lower token) (lower text).

(** [n] is the number of the elements of the list, repetitions counted,
    that satisfy [P]. *)
Inductive counts {A : Type} (P : A -> Prop) : list A -> nat -> Prop :=
| counts_nil : counts P [] 0
| counts_yes (x : A) (l : list A) (n : nat) :
    P x -> counts P l n -> counts P (x :: l) (S n)
| counts_no (x : A) (l : list A) (n : nat) :
    ~ P x -> counts P l n -> counts P (x :: l) n.

(** The outcome [r] of a selection from the pool [m] by the scores [sc]:
    a document with a score of at least 2 that no document of the pool
    exceeds and no document before it reaches; none when no document
    reaches 2. *)
Definition first_best (sc : string -> nat) (m : pdf_map)
    (r : option string) : Prop :=
  match r with
  | Some f =>
      exists pre p post,
        m = pre ++ (p, f) :: post
        /\ 2 <= sc f
        /\ Forall (fun e => sc (snd e) < sc f) pre
        /\ Forall (fun e => sc (snd e) <= sc f) post
  | None => Forall (fun e => sc (snd e) < 2) m
  end.

End Website.

(* ================================================================== *)
(** * Vocabulary of the proofs *)
(* ================================================================== *)

Module Invariants.
Import Py Difflib.

(** ** Normalized strings *)

Definition lowered (c : ascii) : bool := Ascii.eqb (lower_char c) c.

Definition kept (c : ascii) : bool :=
  lowered c && (is_word c || isspace c).

(** Whitespace is the space character only, and never twice in a row. *)
Fixpoint tidy (in_run : bool) (s : string) : bool :=
  match s with
  | EmptyString => true
  | String c r =>
      if isspace c then Ascii.eqb c " " && negb in_run && tidy true r
      else tidy false r
  end.

(** A string that does not start with whitespace. *)
Definition starts_clean (s : string) : bool :=
  match s with
  | EmptyString => true
  | String c _ => negb (isspace c)
  end.

(** ** The positions that [__chain_b] records *)

(** The positions of [c] in [b], counted from [i]. *)
Fixpoint pos_from (i : nat) (b : list ascii) (c : ascii) : list nat :=
  match b with
  | [] => []
  | x :: r =>
      if Ascii.eqb x c then i :: pos_from (S i) r c
      else pos_from (S i) r c
  end.

Definition or_nil (o : option (list nat)) : list nat :=
  match o with Some l => l | None => [] end.

(** ** [find_longest_match] on two copies of one sequence *)

Section Runs.
Variable s : list ascii.
Variable b2j : list (ascii * list nat).

(** The elements that [b2j] still lists. *)
Definition live (c : ascii) : bool :=
  match b2j_get b2j c with [] => false | _ :: _ => true end.

(** The length of the run of live elements that ends at position
    [j]. *)
Fixpoint run (j : nat) : nat :=
  match j with
  | 0 => if live (nth 0 s zero) then 1 else 0
  | S j' => if live (nth (S j') s zero) then run j' + 1 else 0
  end.

Definition run_before (j : nat) : nat :=
  match j with 0 => 0 | S j' => run j' end.

(** The state of [find_longest_match(0, n, 0, n)] before row [i]. *)
Definition row_inv (i : nat) (d : list (nat * nat)) (best : Match)
    : Prop :=
  (forall j, j2len_prev d j <= run_before j)
  /\ (forall j, j2len_prev d j <= run_before i)
  /\ j2len_prev d i = run_before i
  /\ (forall j, j < i -> run j <= snd best)
  /\ fst (fst best) = snd (fst best)
  /\ fst (fst best) + snd best <= i.
End Runs.

(** The body of the loop over a row, as two folds. *)
Definition next_len (d : list (nat * nat)) (j : nat) : nat :=
  j2len_prev d j + 1.

Definition set_len (d nd : list (nat * nat)) (j : nat)
    : list (nat * nat) :=
  dict_set Nat.eqb j (next_len d j) nd.

Definition pick_best (i : nat) (d : list (nat * nat)) (best : Match)
    (j : nat) : Match :=
  if snd best <? next_len d j
  then (i + 1 - next_len d j, j + 1 - next_len d j, next_len d j)
  else best.

(** ** Termination of [get_matching_blocks] *)

(** Every length recorded in a [j2len] is at most [c]. *)
Definition lens_le (c : nat) (d : list (nat * nat)) : Prop :=
  forall j v, dict_get Nat.eqb j d = Some v -> v <= c.

(** A match inside [a[alo:hi]]. *)
Definition within (alo hi : nat) (best : Match) : Prop :=
  alo <= fst (fst best) /\ fst (fst best) + snd best <= hi.

(** The measure of a queue: twice the length of each range of [a], plus
    one for each entry. *)
Definition queue_weight (queue : list (nat * nat * nat * nat)) : nat :=
  list_sum (map (fun e => 2 * (snd (fst (fst e)) - fst (fst (fst e))) + 1)
                queue).

Definition queue_ok (queue : list (nat * nat * nat * nat)) : Prop :=
  Forall (fun e => fst (fst (fst e)) <= snd (fst (fst e))) queue.

End Invariants.

(* ================================================================== *)
(** * [scripts/deduplicate_papers.py]: the papertable files *)
(* ================================================================== *)

Module Papertable.
Import Py.

(** A value that [json.load] returns, and that [json.dump] writes back
    unchanged.  The keys of a [JDict] are distinct. *)
#[warnings="-register-all"]
Inductive json : Type :=
| JNull
| JBool (b : bool)
| JNum (q : Q)
| JStr (s : string)
| JList (l : list json)
| JDict (d : list (string * json)).

(** The exceptions of the loader, all caught by its [except Exception]. *)
Inductive error : Type := TypeError | AttributeError.

Inductive outcome (A : Type) : Type :=
| Returns (a : A)
| Raises (e : error).
Arguments Returns {A} a.
Arguments Raises {A} e.

(** Truth value of a value. *)
Definition is_true (v : json) : bool :=
  match v with
  | JNull => false
  | JBool b => b
  | JNum q => negb (Qeq_bool q 0)
  | JStr s => nonempty s
  | JList l => match l with [] => false | _ :: _ => true end
  | JDict d => match d with [] => false | _ :: _ => true end
  end.

(** [isinstance(v, dict)] *)
Definition is_dict (v : json) : bool :=
  match v with JDict _ => true | _ => false end.

(** [key in d] for a string key. *)
Definition has_key (key : string) (d : list (string * json)) : bool :=
  match dict_get String.eqb key d with Some _ => true | None => false end.

(** [d.get(key, default)] *)
Definition get (key : string) (d : list (string * json)) (default : json)
    : json :=
  match dict_get String.eqb key d with Some v => v | None => default end.

(** What [for x in v] visits: the elements of a list, the keys of a dict,
    the characters of a string; other values are not iterable. *)
Definition iterate (v : json) : outcome (list json) :=
  match v with
  | JList l => Returns l
  | JDict d => Returns (map (fun kv => JStr (fst kv)) d)
  | JStr s =>
      Returns (map (fun c => JStr (String c EmptyString))
                   (list_ascii_of_string s))
  | _ => Raises TypeError
  end.

(** The loop of [find_papers_column]; [JNull] is [None].  [.lower()] on a
    name that is not a string raises [AttributeError]. *)
Fixpoint find_in_columns (columns : list json) : outcome json :=
  match columns with
  | [] => Returns JNull
  | col :: rest =>
      match col with
      | JDict d =>
          match get "name" d (JStr "") with
          | JStr name =>
              let col_name := lower name in
              if contains "paper" col_name
              then Returns (get "column_id" d (JStr ""))
              else find_in_columns rest
          | _ => Raises AttributeError
          end
      | _ => find_in_columns rest
      end
  end.

Definition find_papers_column (columns : json) : outcome json :=
  match iterate columns with
  | Raises e => Raises e
  | Returns cols => find_in_columns cols
  end.

(** [papers_col_id in row] on a dict with string keys: a list or a dict is
    not hashable; a number or a boolean is no key of the row. *)
Definition key_in (k : json) (row : list (string * json)) : outcome bool :=
  match k with
  | JStr s => Returns (has_key s row)
  | JList _ | JDict _ => Raises TypeError
  | _ => Returns false
  end.

(** The loop over [data['data']]. *)
Fixpoint collect_papers (papers_col_id : json) (rows : list json)
    (papers : list json) : outcome (list json) :=
  match rows with
  | [] => Returns papers
  | row :: rest =>
      match row with
      | JDict r =>
          match key_in papers_col_id r with
          | Raises e => Raises e
          | Returns true =>
              let paper_data :=
                match papers_col_id with
                | JStr s => get s r JNull
                | _ => JNull
                end in
              if is_dict paper_data
              then collect_papers papers_col_id rest (papers ++ [paper_data])
              else collect_papers papers_col_id rest papers
          | Returns false => collect_papers papers_col_id rest papers
          end
      | _ => collect_papers papers_col_id rest papers
      end
  end.

(** The body of the [try] of [load_papertable], on the parsed file. *)
Definition load_body (data : json) : outcome (list json) :=
  match data with
  | JDict d =>
      if has_key "data" d && has_key "columns" d then
        match find_papers_column (get "columns" d JNull) with
        | Raises e => Raises e
        | Returns papers_col_id =>
            if negb (is_true papers_col_id) then Returns []
            else
              match iterate (get "data" d JNull) with
              | Raises e => Raises e
              | Returns rows => collect_papers papers_col_id rows []
              end
        end
      else Returns []
  | _ => Returns []
  end.

(** [load_papertable]: [None] is a file that cannot be opened or parsed;
    every exception gives the empty list. *)
Definition load_papertable (file : option json) : list json :=
  match file with
  | None => []
  | Some data =>
      match load_body data with
      | Returns papers => papers
      | Raises _ => []
      end
  end.

(** [str(n)] for a length. *)
Definition str_of_nat (n : nat) : string :=
  NilEmpty.string_of_uint (Nat.to_uint n).

(** The value that [save_papertable] dumps to the file. *)
Definition save_papertable (papers : list json) : json :=
  let papers_col_id := "papers_deduplicated" in
  let rows := map (fun paper => JDict [(papers_col_id, paper)]) papers in
  JDict
    [("columns",
      JList [JDict [("column_id", JStr papers_col_id);
                    ("name",
                     JStr ("Papers (" ++ str_of_nat (length papers)
                           ++ ")")%string);
                    ("custom_instructions", JNull)]]);
     ("data", JList rows);
     ("search_metadata",
      JDict [("description",
              JStr "Deduplicated papers from multiple searches")]);
     ("filter_info", JDict []);
     ("sort", JNull);
     ("read_only", JBool false);
     ("disable_filters", JBool false);
     ("disable_sorting", JBool false)].

End Papertable.

(* ================================================================== *)
(** * [scripts/build_website.py]: links in the text and in the table *)
(* ================================================================== *)

Module Content.
Import Py Website.

Definition q : string := String dquote EmptyString.

(** [replace_ref], on the digits [rid] of a citation marker. *)
Definition replace_ref (ref_map : list (string * string)) (rid : string)
    : string :=
  let plain := ("[" ++ rid ++ "]")%string in
  match dict_get String.eqb rid ref_map with
  | Some pdf_link =>
      if nonempty pdf_link
      then ("<a href=" ++ q ++ pdf_link ++ q ++ " class=" ++ q ++ "ref-link"
            ++ q ++ " title=" ++ q ++ "Open PDF for Reference " ++ rid ++ q
            ++ " target=" ++ q ++ "_blank" ++ q ++ ">[" ++ rid ++ "]</a>")%string
      else plain
  | None => plain
  end.

(** [re.sub(r"\[(\d+)\]", repl, s)], from left to right.  [pending] holds
    the digits read since an opening bracket that may still start a
    marker. *)
Fixpoint sub_markers (repl : string -> string) (pending : option string)
    (s : string) : string :=
  match s with
  | EmptyString =>
      match pending with
      | Some digits => ("[" ++ digits)%string
      | None => EmptyString
      end
  | String c r =>
      let outside :=
        if Ascii.eqb c "["%char then sub_markers repl (Some EmptyString) r
        else String c (sub_markers repl None r) in
      match pending with
      | None => outside
      | Some digits =>
          if isdecimal c
          then sub_markers repl (Some (digits ++ String c EmptyString)%string) r
          else if Ascii.eqb c "]"%char && nonempty digits
               then (repl digits ++ sub_markers repl None r)%string
               else ("[" ++ digits ++ outside)%string
      end
  end.

(** The reference linking of a line of [parse_slr_content]. *)
Definition link_references (ref_map : list (string * string))
    (line : string) : string :=
  sub_markers (replace_ref ref_map) None line.

(** The PDF cell of a row of [generate_papers_table]. *)
Definition pdf_cell (m : pdf_map) (r : row) : result string :=
  let p_num := strip (row_get "Paper Number" r) in
  if isdigit p_num then
    match int p_num with
    | None => Raise ValueError
    | Some pid =>
        match dict_get Nat.eqb pid m with
        | Some f =>
            Ok ("<a href=" ++ q ++ "paper_for_full_text_review/" ++ f ++ q
                ++ " target=" ++ q ++ "_blank" ++ q ++ " style=" ++ q
                ++ "color:var(--highlight)" ++ q ++ ">PDF</a>")%string
        | None =>
            Ok ("<span style=" ++ q ++ "color:var(--text-muted)" ++ q
                ++ ">-</span>")%string
        end
    end
  else Ok EmptyString.

End Content.

(* ================================================================== *)
(** * The title search of [load_reference_map] on text of any code
      points *)
(* ================================================================== *)

Module Titles.
Import Py Website.

(** A text as the list of its code points.  The two searches of the
    source compare code points only, so they are modelled on every text,
    with the curly quotes that a [string] cannot hold. *)
Definition text : Type := list N.

Definition ldquo : N := 8220.   (* U+201C *)
Definition rdquo : N := 8221.   (* U+201D *)
Definition dquote_code : N := 34.

(** The longest prefix without the code point [c], and what follows. *)
Fixpoint span_until_code (c : N) (s : text) : text * text :=
  match s with
  | [] => ([], [])
  | x :: r =>
      if N.eqb x c then ([], s)
      else let '(run, rest) := span_until_code c r in (x :: run, rest)
  end.

(** Group 1 of [re.search(o + "([^" + c + "]+)" + c, s)]: the leftmost
    [o] that is followed by a non-empty run of code points other than [c]
    and by a [c]. *)
Fixpoint search_delimited (o c : N) (s : text) : option text :=
  match s with
  | [] => None
  | x :: r =>
      if N.eqb x o
      then let '(run, rest) := span_until_code c r in
           match run, rest with
           | _ :: _, _ :: _ => Some run
           | _, _ => search_delimited o c r
           end
      else search_delimited o c r
  end.

(** The two searches of the loop body: curly quotes first, straight
    quotes when the first search finds nothing. *)
Definition title_match_text (ref_text : text) : option text :=
  match search_delimited ldquo rdquo ref_text with
  | Some t => Some t
  | None => search_delimited dquote_code dquote_code ref_text
  end.

(** The code points of a [string]. *)
Definition codes (s : string) : text :=
  map N_of_ascii (list_ascii_of_string s).

End Titles.

(* ================================================================== *)
(** * Vocabulary of the further properties *)
(* ================================================================== *)

Module Properties.
Import Py Difflib Dedup Website.

(** [l1] is [l2] with some elements left out, in the same order. *)
Inductive subseq {A : Type} : list A -> list A -> Prop :=
| subseq_nil : subseq [] []
| subseq_skip (x : A) (l1 l2 : list A) : subseq l1 l2 -> subseq l1 (x :: l2)
| subseq_take (x : A) (l1 l2 : list A) :
    subseq l1 l2 -> subseq (x :: l1) (x :: l2).

(** No record of the list is classified as a duplicate of a record before
    it. *)
Definition duplicate_free (l : list paper) : Prop :=
  forall l1 u l2 p l3,
    l = l1 ++ u :: l2 ++ p :: l3 ->
    are_duplicates p u default_threshold = false.

(** A record that the classifier can compare with itself: it has an
    identifier that is not blank, or a title that does not normalize to the
    empty string. *)
Definition comparable (p : paper) : Prop :=
  nonempty (doi_key p) = true \/ normalize_string (title p) <> "".

(** The characters of a normalized string. *)
Definition normal_char (c : ascii) : bool :=
  Ascii.eqb c " " || (is_word c && Ascii.eqb (lower_char c) c).

(** A file name that [load_pdf_map] enters under the number [n]. *)
Definition pdf_name (n : nat) (f : string) : Prop :=
  endswith ".pdf" (lower f) = true /\ leading_number f = Some n.

(** The state of the matching of [b]: every recorded length ends inside
    [b[blo:]]. *)
Definition lens_fit (blo : nat) (d : list (nat * nat)) : Prop :=
  forall j v, dict_get Nat.eqb j d = Some v -> blo <= j /\ v <= j + 1 - blo.

(** A match inside [b[blo:hi]]. *)
Definition within_b (blo hi : nat) (best : Match) : Prop :=
  blo <= snd (fst best) /\ snd (fst best) + snd best <= hi.

Definition queue_span_a (queue : list (nat * nat * nat * nat)) : nat :=
  list_sum (map (fun e => snd (fst (fst e)) - fst (fst (fst e))) queue).

Definition queue_span_b (queue : list (nat * nat * nat * nat)) : nat :=
  list_sum (map (fun e => snd e - snd (fst e)) queue).

Definition queue_ok_b (queue : list (nat * nat * nat * nat)) : Prop :=
  Forall (fun e => snd (fst e) <= snd e) queue.

Definition sizes (blocks : list Match) : nat :=
  list_sum (map size_of blocks).

(** A column that [find_papers_column] passes over: not a dict, or a dict
    whose name is a string without "paper". *)
Definition passed_over (col : Papertable.json) : bool :=
  match col with
  | Papertable.JDict c =>
      match Papertable.get "name" c (Papertable.JStr "") with
      | Papertable.JStr name => negb (contains "paper" (lower name))
      | _ => false
      end
  | _ => true
  end.

(** The text around a file name in a link of [ref_link_map]. *)
Definition link_prefix : string := "paper_for_full_text_review/".

(** The anchor of the papers table for the file [f]. *)
Definition table_anchor (f : string) : string :=
  ("<a href=" ++ Content.q ++ "paper_for_full_text_review/" ++ f
   ++ Content.q ++ " target=" ++ Content.q ++ "_blank" ++ Content.q
   ++ " style=" ++ Content.q ++ "color:var(--highlight)" ++ Content.q
   ++ ">PDF</a>")%string.

(** The numbers of the citation markers of a line, from left to right:
    what [re.findall(r"\[(\d+)\]", s)] returns.  [pending] is as in
    [sub_markers]. *)
Fixpoint markers_from (pending : option string) (s : string)
    : list string :=
  match s with
  | EmptyString => []
  | String c r =>
      let outside :=
        if Ascii.eqb c "["%char then markers_from (Some EmptyString) r
        else markers_from None r in
      match pending with
      | None => outside
      | Some digits =>
          if isdecimal c
          then markers_from (Some (digits ++ String c EmptyString)%string) r
          else if Ascii.eqb c "]"%char && nonempty digits
               then digits :: markers_from None r
               else outside
      end
  end.

Definition markers (line : string) : list string := markers_from None line.

(** Occurrences of a code point. *)
Definition count_code (c : N) (s : Titles.text) : nat :=
  length (filter (N.eqb c) s).

End Properties.

Import Py Difflib Dedup Website Invariants.
Import Papertable Content Titles Properties.

Ltac each_char c := destruct c as [[] [] [] [] [] [] [] []]; reflexivity.

(* ================================================================== *)
(** * Strings *)
(* ================================================================== *)

Section Strings.

Lemma string_app_assoc (s1 s2 s3 : string) :
  ((s1 ++ s2) ++ s3 = s1 ++ (s2 ++ s3))%string.
Proof. induction s1 as [|c r IH]; simpl; [reflexivity|now rewrite IH]. Qed.

Lemma string_app_nil_r (s : string) : (s ++ "" = s)%string.
Proof. induction s as [|c r IH]; simpl; [reflexivity|now rewrite IH]. Qed.

End Strings.

(* ================================================================== *)
(** * The incremental deduplicator *)
(* ================================================================== *)

Section Deduplicator.

Lemma check_unique_count (p : paper) (unique_papers : list paper) (c : nat) :
  check_unique p unique_papers c = (true, c + 1)
  \/ check_unique p unique_papers c = (false, c).
Proof.
  induction unique_papers as [|u r IH]; simpl.
  - now right.
  - destruct (are_duplicates p u default_threshold); [now left | exact IH].
Qed.

Lemma dedup_loop_count (all_papers : list paper) :
  forall unique_papers c,
    snd (dedup_loop all_papers unique_papers c)
    + length (fst (dedup_loop all_papers unique_papers c))
    = c + length unique_papers + length all_papers.
Proof.
  induction all_papers as [|p r IH]; intros unique_papers c; simpl.
  - lia.
  - destruct (check_unique_count p unique_papers c) as [E|E]; rewrite E.
    + rewrite IH. lia.
    + rewrite IH, length_app. simpl. lia.
Qed.

(** C3: for every input sequence, the duplicate count and the number of
    unique records returned by [deduplicate_papers] add up to the number
    of input records. *)
Theorem deduplicate_papers_count (all_papers : list paper) :
  snd (deduplicate_papers all_papers)
  + length (fst (deduplicate_papers all_papers))
  = length all_papers.
Proof.
  unfold deduplicate_papers. rewrite dedup_loop_count. simpl. lia.
Qed.

End Deduplicator.

(* ================================================================== *)
(** * The duplicate classifier *)
(* ================================================================== *)

Section Classifier.

Lemma nonempty_true (s : string) : nonempty s = true <-> s <> "".
Proof. destruct s; simpl; split; congruence. Qed.

Lemma nonempty_false (s : string) : nonempty s = false <-> s = "".
Proof. destruct s; simpl; split; congruence. Qed.

Lemma nonempty_lower (s : string) : nonempty (lower s) = nonempty s.
Proof. now destruct s. Qed.

Lemma strip_empty : strip "" = "".
Proof. reflexivity. Qed.

(** The classifier, below its first test. *)
Lemma are_duplicates_no_identifier (p1 p2 : paper) (thr : Q) :
  identifier_match p1 p2 = false ->
  are_duplicates p1 p2 thr =
    if negb (truthy (title p1)) || negb (truthy (title p2)) then false
    else
      let sim := title_similarity (title p1) (title p2) in
      if Qle_bool thr sim then
        let authors1 := normalize_authors (authors p1) in
        let authors2 := normalize_authors (authors p2) in
        if nonempty authors1 && nonempty authors2 then
          match author_set authors1, author_set authors2 with
          | _ :: _, _ :: _ =>
              if Qle_bool (1 # 2)
                   (true_div
                      (overlap_count (author_set authors1)
                         (author_set authors2))
                      (Nat.min (length (author_set authors1))
                         (length (author_set authors2))))
              then true else false
          | _, _ => false
          end
        else if Qle_bool (19 # 20) sim then true else false
      else false.
Proof.
  unfold identifier_match, are_duplicates. intros ->. reflexivity.
Qed.

(** C1, as stated, fails: two records with the same identifier and no
    title are duplicates. *)
Lemma missing_title_counterexample :
  let p1 := Paper (Some "10.1/x") None [] in
  let p2 := Paper (Some " 10.1/X") None [AuthorName "A. Smith"] in
  lacks_title p1 = true /\ lacks_title p2 = true
  /\ are_duplicates p1 p2 default_threshold = true.
Proof. repeat split; reflexivity. Qed.

(** C1, amended: when the identifier match does not hold and either
    record lacks a title (absent or empty), [are_duplicates] returns
    false, for every threshold and whatever the authors. *)
Theorem missing_title_not_duplicate (p1 p2 : paper) (thr : Q) :
  identifier_match p1 p2 = false ->
  lacks_title p1 = true \/ lacks_title p2 = true ->
  are_duplicates p1 p2 thr = false.
Proof.
  intros Hid Hlack. rewrite (are_duplicates_no_identifier _ _ _ Hid).
  unfold lacks_title in Hlack.
  destruct Hlack as [-> | ->]; [reflexivity|].
  now rewrite orb_true_r.
Qed.

Lemma missing_title_not_duplicate_witness :
  are_duplicates (Paper (Some "10.1/x") None [AuthorName "A. Smith"])
                 (Paper (Some "10.1/y") (Some "Drift") [])
                 default_threshold = false.
Proof.
  apply missing_title_not_duplicate; [reflexivity | left; reflexivity].
Defined.

(** C2, as stated, fails: an identifier of blanks only is not empty, and
    two such identifiers have equal trimmed forms, yet the records are
    not classified as duplicates. *)
Lemma identifier_match_counterexample :
  let p1 := Paper (Some " ") None [] in
  let p2 := Paper (Some "  ") None [] in
  " " <> "" /\ "  " <> "" /\ lower (strip " ") = lower (strip "  ")
  /\ are_duplicates p1 p2 default_threshold = false.
Proof. repeat split; try reflexivity; discriminate. Qed.

Lemma strip_nonempty_arg (d : string) : strip d <> "" -> nonempty d = true.
Proof. destruct d; [intros H; now elim H | reflexivity]. Qed.

Lemma doi_key_some (p : paper) (d : string) :
  doi p = Some d -> strip d <> "" ->
  doi_key p = lower (strip d) /\ nonempty (doi_key p) = true.
Proof.
  intros Hd Hs. unfold doi_key. rewrite Hd, (strip_nonempty_arg _ Hs).
  split; [reflexivity|]. rewrite nonempty_lower. now apply nonempty_true.
Qed.

(** C2, amended: when both records have an identifier that is not empty
    after trimming, and the trimmed, lowercased identifiers are equal,
    [are_duplicates] returns true, for every threshold and whatever the
    titles and the authors. *)
Theorem identifier_match_duplicate (p1 p2 : paper) (d1 d2 : string)
    (thr : Q) :
  doi p1 = Some d1 -> doi p2 = Some d2 ->
  strip d1 <> "" -> strip d2 <> "" ->
  lower (strip d1) = lower (strip d2) ->
  are_duplicates p1 p2 thr = true.
Proof.
  intros H1 H2 N1 N2 E.
  destruct (doi_key_some _ _ H1 N1) as [K1 T1].
  destruct (doi_key_some _ _ H2 N2) as [K2 T2].
  unfold are_duplicates. rewrite T1, T2, K1, K2, E, String.eqb_refl.
  reflexivity.
Qed.

Lemma identifier_match_duplicate_witness :
  are_duplicates
    (Paper (Some " 10.1/X ") (Some "Drift Detection in Clouds") [])
    (Paper (Some "10.1/x") (Some "Completely Unrelated Topic")
       [AuthorName "B. Lee"])
    (1 # 1) = true.
Proof.
  apply (identifier_match_duplicate _ _ " 10.1/X " "10.1/x");
    try reflexivity; vm_compute; discriminate.
Defined.

(** The stricter bar, on the branch of the code that applies it: the
    joined author string of at least one record is empty. *)
Lemma strict_bar_without_author_string (p1 p2 : paper) (thr : Q) :
  identifier_match p1 p2 = false ->
  truthy (title p1) = true -> truthy (title p2) = true ->
  (thr <= title_similarity (title p1) (title p2))%Q ->
  no_author_string p1 = true \/ no_author_string p2 = true ->
  (are_duplicates p1 p2 thr = true
   <-> (19 # 20 <= title_similarity (title p1) (title p2))%Q).
Proof.
  intros Hid T1 T2 Hthr Hno.
  rewrite (are_duplicates_no_identifier _ _ _ Hid), T1, T2. cbn zeta.
  apply Qle_bool_iff in Hthr. rewrite Hthr. simpl negb. simpl orb. cbv iota.
  assert (Hn : nonempty (normalize_authors (authors p1))
               && nonempty (normalize_authors (authors p2)) = false).
  { unfold no_author_string in Hno.
    destruct Hno as [H|H]; apply negb_true_iff in H; rewrite H;
      [reflexivity | apply andb_false_r]. }
  rewrite Hn. rewrite <- Qle_bool_iff.
  destruct (Qle_bool (19 # 20) _); split; congruence.
Qed.

(** The names that the code collects from a record without author
    information: one empty string for each entry with a name. *)
Lemma author_names_no_info (l : list author) :
  forallb (fun a => negb (nonempty (normalize_string (author_name a)))) l
  = true ->
  author_names l
  = repeat "" (length (filter (fun a => truthy (author_name a)) l)).
Proof.
  induction l as [|a r IH]; simpl; [reflexivity|].
  intros H. apply andb_true_iff in H as [Ha Hr].
  apply negb_true_iff in Ha.
  destruct (truthy (author_name a)); simpl; rewrite (IH Hr); [|reflexivity].
  f_equal. destruct (normalize_string (author_name a)); [reflexivity|].
  discriminate Ha.
Qed.

(** A record without author information takes the branch of the stricter
    bar when at most one of its entries has a name. *)
Lemma no_info_author_string (p : paper) :
  no_author_info p = true ->
  length (filter (fun a => truthy (author_name a)) (authors p)) <= 1 ->
  no_author_string p = true.
Proof.
  unfold no_author_info, no_author_string, normalize_authors.
  intros H Hl. rewrite (author_names_no_info _ H).
  destruct (authors p) as [|a r]; [reflexivity|].
  destruct (length _) as [|[|k]]; [reflexivity|reflexivity|lia].
Qed.

(** With two or more names that normalize to the empty string the joined
    author string is not empty. *)
Lemma no_info_author_string_two (p : paper) :
  no_author_info p = true ->
  2 <= length (filter (fun a => truthy (author_name a)) (authors p)) ->
  no_author_string p = false.
Proof.
  unfold no_author_info, no_author_string, normalize_authors.
  intros H Hl. rewrite (author_names_no_info _ H).
  destruct (authors p) as [|a r]; [simpl in Hl; lia|].
  destruct (length _) as [|[|k]]; [lia|lia|].
  assert (E : forall n, sorted (repeat "" n) = repeat "" n).
  { induction n as [|n IHn]; simpl; [reflexivity|].
    rewrite IHn. now destruct n. }
  rewrite E. reflexivity.
Qed.

(** The claim C7 where it holds: at least one record has no author
    information and at most one entry with a name. *)
Lemma strict_bar_single_name (p1 p2 : paper) (thr : Q) :
  identifier_match p1 p2 = false ->
  truthy (title p1) = true -> truthy (title p2) = true ->
  (thr <= title_similarity (title p1) (title p2))%Q ->
  (no_author_info p1 = true
   /\ length (filter (fun a => truthy (author_name a)) (authors p1)) <= 1)
  \/ (no_author_info p2 = true
      /\ length (filter (fun a => truthy (author_name a)) (authors p2)) <= 1) ->
  (are_duplicates p1 p2 thr = true
   <-> (19 # 20 <= title_similarity (title p1) (title p2))%Q).
Proof.
  intros Hid T1 T2 Hthr Hno.
  apply strict_bar_without_author_string; try assumption.
  destruct Hno as [[H L]|[H L]]; [left|right];
    now apply no_info_author_string.
Qed.

(** C7 at an input on which the code departs from it: the two names of
    the first record normalize to the empty string, so the record has no
    author information; the titles are equal, with similarity 1; the
    joined author string of the record is the separator alone, which is
    not empty, so the code compares the author sets and returns false
    where the claim gives true.  With one such name instead of two the
    code applies the stricter bar and returns true. *)
Theorem no_author_info_failing_input :
  let t := Some "Cloud Drift Remediation Survey" in
  let p1 := Paper None t [AuthorName "!!!"; AuthorName "???"] in
  let p2 := Paper None t [AuthorName "A. Smith"] in
  let p1' := Paper None t [AuthorName "!!!"] in
  identifier_match p1 p2 = false
  /\ truthy (title p1) = true /\ truthy (title p2) = true
  /\ no_author_info p1 = true
  /\ (default_threshold <= title_similarity (title p1) (title p2))%Q
  /\ (19 # 20 <= title_similarity (title p1) (title p2))%Q
  /\ normalize_authors (authors p1) = "|"
  /\ are_duplicates p1 p2 default_threshold = false
  /\ no_author_info p1' = true
  /\ are_duplicates p1' p2 default_threshold = true.
Proof.
  repeat split; try (apply Qle_bool_iff); vm_compute; reflexivity.
Qed.

End Classifier.

(* ================================================================== *)
(** * The normalizer *)
(* ================================================================== *)

Section Normalizer.

Lemma lower_char_replace (c : ascii) :
  lower_char (if word_or_space c then c else " "%char)
  = (if is_word (lower_char c) || isspace (lower_char c)
     then lower_char c else " "%char).
Proof. each_char c. Qed.

Lemma lower_replace (s : string) :
  lower (replace_unless word_or_space s) = sub_nonword_nonspace (lower s).
Proof.
  induction s as [|c r IH]; simpl; [reflexivity|].
  now rewrite IH, lower_char_replace.
Qed.

Lemma replace_unless_word (s : string) :
  replace_unless word_or_space s = sub_nonword_nonspace s.
Proof.
  induction s as [|c r IH]; simpl; [reflexivity|]. now rewrite IH.
Qed.

(** C4, as stated, fails: the underscore is neither a letter, a digit nor
    whitespace, and [normalize_string] keeps it. *)
Lemma normalize_string_counterexample :
  normalize_string (Some "a_b") = "a_b"
  /\ normalize_by letter_digit_space (Some "a_b") = "a b".
Proof. split; reflexivity. Qed.

(** C4, amended: [normalize_string] is total, returns the empty string
    for an absent or empty input, and for every string returns the result
    of lowercasing, replacing each character that is neither a word
    character (a letter, a digit or other alphanumeric character, or the
    underscore) nor whitespace with a space, collapsing each run of
    whitespace to one space, and trimming.  On strings of code points
    below 256 the replacing can as well come before the lowercasing, as
    the claim has it: the result is the same. *)
Theorem normalize_string_spec :
  (forall s, exists r, normalize_string s = r)
  /\ normalize_string None = ""
  /\ normalize_string (Some "") = ""
  /\ (forall s : string,
        normalize_string (Some s)
        = normalize_lowered_by word_or_space (Some s))
  /\ (forall s : string,
        normalize_lowered_by word_or_space (Some s)
        = normalize_by word_or_space (Some s)).
Proof.
  repeat split; try reflexivity.
  - intros s. now exists (normalize_string s).
  - intros [|c r]; [reflexivity|].
    unfold normalize_string, normalize_lowered_by. cbn [nonempty negb].
    now rewrite replace_unless_word.
  - intros s. unfold normalize_lowered_by, normalize_by.
    now rewrite replace_unless_word, lower_replace.
Qed.

(** ** Idempotence *)

Lemma lower_char_lowered (c : ascii) : lowered (lower_char c) = true.
Proof. each_char c. Qed.

Lemma replaced_char_ok (c : ascii) :
  lowered c = true ->
  let c' := if is_word c || isspace c then c else " "%char in
  lowered c' && (is_word c' || isspace c') = true.
Proof. destruct c as [[] [] [] [] [] [] [] []]; intros H; try reflexivity; discriminate H. Qed.

Lemma lower_all_lowered (s : string) : all_chars lowered (lower s) = true.
Proof.
  induction s as [|c r IH]; simpl; [reflexivity|].
  now rewrite lower_char_lowered, IH.
Qed.

Lemma sub_nonword_kept (s : string) :
  all_chars lowered s = true ->
  all_chars kept (sub_nonword_nonspace s) = true.
Proof.
  induction s as [|c r IH]; simpl; [reflexivity|].
  intros H. apply andb_true_iff in H as [Hc Hr].
  apply andb_true_iff. split; [|now apply IH].
  exact (replaced_char_ok c Hc).
Qed.

Lemma sub_spaces_kept (s : string) (b : bool) :
  all_chars kept s = true -> all_chars kept (sub_spaces_from b s) = true.
Proof.
  revert b. induction s as [|c r IH]; intros b; simpl; [reflexivity|].
  intros H. apply andb_true_iff in H as [Hc Hr].
  destruct (isspace c).
  - destruct b; simpl; auto.
  - simpl. now rewrite Hc, IH.
Qed.

Lemma sub_spaces_tidy (s : string) (b : bool) :
  tidy b (sub_spaces_from b s) = true.
Proof.
  revert b. induction s as [|c r IH]; intros b; simpl; [reflexivity|].
  destruct (isspace c) eqn:E.
  - destruct b; [apply IH|]. simpl. apply IH.
  - simpl. rewrite E. apply IH.
Qed.

Lemma lstrip_kept (s : string) :
  all_chars kept s = true -> all_chars kept (lstrip s) = true.
Proof.
  induction s as [|c r IH]; simpl; [reflexivity|].
  intros H. destruct (isspace c); [|exact H].
  apply andb_true_iff in H as [_ Hr]. now apply IH.
Qed.

Lemma rstrip_kept (s : string) :
  all_chars kept s = true -> all_chars kept (rstrip s) = true.
Proof.
  induction s as [|c r IH]; simpl; [reflexivity|].
  intros H. apply andb_true_iff in H as [Hc Hr].
  destruct (isspace c && negb (nonempty (rstrip r))); [reflexivity|].
  simpl. now rewrite Hc, IH.
Qed.

Lemma lstrip_tidy (s : string) (b b' : bool) :
  tidy b s = true -> tidy b' (lstrip s) = true.
Proof.
  revert b. induction s as [|c r IH]; intros b; simpl; [reflexivity|].
  destruct (isspace c) eqn:E.
  - intros H. apply andb_true_iff in H as [_ Hr]. now apply (IH true).
  - intros H. simpl. now rewrite E.
Qed.

Lemma rstrip_tidy (s : string) (b : bool) :
  tidy b s = true -> tidy b (rstrip s) = true.
Proof.
  revert b. induction s as [|c r IH]; intros b; simpl; [reflexivity|].
  destruct (isspace c) eqn:E; intros H.
  - apply andb_true_iff in H as [Hcb Hr].
    destruct (nonempty (rstrip r)); simpl; [|reflexivity].
    rewrite E, Hcb. now apply IH.
  - simpl. rewrite E. now apply IH.
Qed.

Lemma lstrip_starts_clean (s : string) : starts_clean (lstrip s) = true.
Proof.
  induction s as [|c r IH]; simpl; [reflexivity|].
  destruct (isspace c) eqn:E; [exact IH|]. simpl. now rewrite E.
Qed.

Lemma lstrip_clean (s : string) : starts_clean s = true -> lstrip s = s.
Proof.
  destruct s as [|c r]; simpl; [reflexivity|].
  intros H. apply negb_true_iff in H. now rewrite H.
Qed.

Lemma rstrip_starts_clean (s : string) :
  starts_clean s = true -> starts_clean (rstrip s) = true.
Proof.
  destruct s as [|c r]; simpl; [reflexivity|].
  intros H. apply negb_true_iff in H. rewrite H. simpl. now rewrite H.
Qed.

Lemma rstrip_idem (s : string) : rstrip (rstrip s) = rstrip s.
Proof.
  induction s as [|c r IH]; simpl; [reflexivity|].
  destruct (isspace c && negb (nonempty (rstrip r))) eqn:E;
    [reflexivity|].
  simpl. now rewrite IH, E.
Qed.

Lemma strip_idem (s : string) : strip (strip s) = strip s.
Proof.
  unfold strip.
  rewrite (lstrip_clean (rstrip (lstrip s))).
  - apply rstrip_idem.
  - apply rstrip_starts_clean, lstrip_starts_clean.
Qed.

Lemma lower_fixed (s : string) : all_chars kept s = true -> lower s = s.
Proof.
  induction s as [|c r IH]; simpl; [reflexivity|].
  intros H. apply andb_true_iff in H as [Hc Hr].
  apply andb_true_iff in Hc as [Hl _]. apply Ascii.eqb_eq in Hl.
  now rewrite Hl, IH.
Qed.

Lemma sub_nonword_fixed (s : string) :
  all_chars kept s = true -> sub_nonword_nonspace s = s.
Proof.
  induction s as [|c r IH]; simpl; [reflexivity|].
  intros H. apply andb_true_iff in H as [Hc Hr].
  apply andb_true_iff in Hc as [_ Hw]. now rewrite Hw, IH.
Qed.

Lemma sub_spaces_fixed (s : string) (b : bool) :
  tidy b s = true -> sub_spaces_from b s = s.
Proof.
  revert b. induction s as [|c r IH]; intros b; simpl; [reflexivity|].
  destruct (isspace c).
  - intros H. apply andb_true_iff in H as [Hcb Hr].
    apply andb_true_iff in Hcb as [Hc Hb].
    apply Ascii.eqb_eq in Hc. apply negb_true_iff in Hb. subst.
    now rewrite (IH true Hr).
  - intros H. now rewrite (IH false H).
Qed.

(** Normalizing a normalized string changes nothing. *)
Lemma normalize_string_idempotent (s : option string) :
  normalize_string (Some (normalize_string s)) = normalize_string s.
Proof.
  destruct s as [s|]; [|reflexivity].
  destruct (nonempty s) eqn:Es;
    [|apply nonempty_false in Es; subst s; reflexivity].
  assert (E : normalize_string (Some s)
              = strip (sub_spaces (sub_nonword_nonspace (lower s)))).
  { unfold normalize_string. now rewrite Es. }
  rewrite E. clear E.
  set (v := sub_spaces (sub_nonword_nonspace (lower s))).
  assert (Hk : all_chars kept (strip v) = true).
  { unfold strip. apply rstrip_kept, lstrip_kept. unfold v, sub_spaces.
    apply sub_spaces_kept, sub_nonword_kept, lower_all_lowered. }
  assert (Ht : tidy false (strip v) = true).
  { unfold strip. apply rstrip_tidy, (lstrip_tidy _ false).
    unfold v, sub_spaces. apply sub_spaces_tidy. }
  unfold normalize_string.
  destruct (nonempty (strip v)) eqn:En; simpl negb; cbv iota.
  - rewrite (lower_fixed _ Hk), (sub_nonword_fixed _ Hk).
    unfold sub_spaces. rewrite (sub_spaces_fixed _ _ Ht).
    apply strip_idem.
  - symmetry. now apply nonempty_false.
Qed.

End Normalizer.

(* ================================================================== *)
(** * The similarity scorer *)
(* ================================================================== *)

Section Dictionaries.
Context {K V : Type} (eqb : K -> K -> bool).
Hypothesis eqb_spec : forall x y, reflect (x = y) (eqb x y).

Lemma dict_get_set (k k' : K) (v : V) (d : list (K * V)) :
  dict_get eqb k (dict_set eqb k' v d)
  = if eqb k k' then Some v else dict_get eqb k d.
Proof.
  induction d as [|[k0 v0] r IH]; simpl.
  - reflexivity.
  - destruct (eqb_spec k' k0) as [->|N]; simpl.
    + destruct (eqb_spec k k0); reflexivity.
    + rewrite IH. destruct (eqb_spec k k0) as [->|N'].
      * destruct (eqb_spec k0 k'); [congruence|reflexivity].
      * reflexivity.
Qed.

Lemma dict_set_keys (k : K) (v : V) (d : list (K * V)) :
  NoDup (map fst d) -> NoDup (map fst (dict_set eqb k v d)).
Proof.
  assert (Hin : forall d x, In x (map fst (dict_set eqb k v d)) ->
                            x = k \/ In x (map fst d)).
  { clear d. induction d as [|[k0 v0] r IH]; simpl; intros x H.
    - destruct H as [<-|[]]. now left.
    - destruct (eqb_spec k k0) as [->|N]; simpl in H.
      + destruct H as [<-|H]; auto.
      + destruct H as [<-|H]; auto. destruct (IH _ H); auto. }
  induction d as [|[k0 v0] r IH]; simpl; intros H.
  - constructor; [intros []|constructor].
  - inversion H as [|? ? Hn Hr]; subst.
    destruct (eqb_spec k k0) as [->|N]; simpl.
    + now constructor.
    + constructor; [|now apply IH].
      intros Hi. destruct (Hin _ _ Hi) as [E|Hi']; [congruence|].
      now apply Hn.
Qed.

Lemma dict_get_absent (k : K) (d : list (K * V)) :
  ~ In k (map fst d) -> dict_get eqb k d = None.
Proof.
  induction d as [|[k0 v0] r IH]; simpl; intros H; [reflexivity|].
  destruct (eqb_spec k k0) as [->|N]; [elim H; now left|].
  apply IH. intros Hi. apply H. now right.
Qed.

Lemma dict_get_filter (p : K * V -> bool) (k : K) (d : list (K * V)) :
  NoDup (map fst d) ->
  dict_get eqb k (filter p d)
  = match dict_get eqb k d with
    | Some v => if p (k, v) then Some v else None
    | None => None
    end.
Proof.
  induction d as [|[k0 v0] r IH]; simpl; intros H; [reflexivity|].
  inversion H as [|? ? Hn Hr]; subst.
  destruct (eqb_spec k k0) as [->|N].
  - destruct (p (k0, v0)) eqn:E; simpl.
    + destruct (eqb_spec k0 k0); [reflexivity|congruence].
    + apply dict_get_absent. intros Hi. apply Hn.
      apply in_map_iff in Hi as [[k1 v1] [E1 Hi]]. simpl in E1. subst k1.
      apply filter_In in Hi as [Hi _].
      apply in_map_iff. now exists (k0, v1).
  - destruct (p (k0, v0)); simpl.
    + destruct (eqb_spec k k0); [congruence|]. now apply IH.
    + now apply IH.
Qed.
End Dictionaries.

Section ChainB.

Lemma b2j_append_get (c x : ascii) (i : nat) (d : list (ascii * list nat)) :
  dict_get Ascii.eqb c (b2j_append x i d)
  = if Ascii.eqb c x
    then Some (or_nil (dict_get Ascii.eqb x d) ++ [i])
    else dict_get Ascii.eqb c d.
Proof.
  unfold b2j_append.
  destruct (dict_get Ascii.eqb x d) eqn:E;
    rewrite (dict_get_set _ Ascii.eqb_spec); reflexivity.
Qed.

Lemma b2j_append_keys (x : ascii) (i : nat) (d : list (ascii * list nat)) :
  NoDup (map fst d) -> NoDup (map fst (b2j_append x i d)).
Proof.
  unfold b2j_append.
  destruct (dict_get Ascii.eqb x d);
    apply (dict_set_keys _ Ascii.eqb_spec).
Qed.

Lemma chain_loop_keys (b : list ascii) :
  forall i d, NoDup (map fst d) -> NoDup (map fst (chain_loop i b d)).
Proof.
  induction b as [|x r IH]; intros i d H; simpl; [exact H|].
  apply IH. now apply b2j_append_keys.
Qed.

Lemma chain_loop_get (c : ascii) (b : list ascii) :
  forall i d,
    dict_get Ascii.eqb c (chain_loop i b d)
    = match pos_from i b c with
      | [] => dict_get Ascii.eqb c d
      | l => Some (or_nil (dict_get Ascii.eqb c d) ++ l)
      end.
Proof.
  induction b as [|x r IH]; intros i d; simpl; [reflexivity|].
  rewrite IH, b2j_append_get.
  destruct (Ascii.eqb_spec x c) as [->|N].
  - rewrite Ascii.eqb_refl. simpl or_nil.
    destruct (pos_from (S i) r c); [reflexivity|].
    now rewrite <- app_assoc.
  - destruct (Ascii.eqb_spec c x); [congruence|reflexivity].
Qed.

(** What [find_longest_match] reads in [b2j]: all the positions of the
    element, or nothing when the element is popular. *)
Lemma b2j_get_chain_b (b : list ascii) (c : ascii) :
  b2j_get (chain_b b) c = [] \/ b2j_get (chain_b b) c = pos_from 0 b c.
Proof.
  unfold b2j_get, chain_b.
  destruct (200 <=? length b).
  - rewrite (dict_get_filter _ Ascii.eqb_spec).
    + rewrite chain_loop_get. simpl dict_get.
      destruct (pos_from 0 b c) eqn:E; [now left|].
      cbn [or_nil app].
      destruct (negb (length b / 100 + 1 <? length (n :: l)));
        [now right | now left].
    + apply chain_loop_keys. constructor.
  - rewrite chain_loop_get. simpl dict_get.
    destruct (pos_from 0 b c); now right.
Qed.

Lemma pos_from_in (c : ascii) (b : list ascii) :
  forall i j, In j (pos_from i b c) ->
              i <= j /\ j < i + length b /\ nth (j - i) b zero = c.
Proof.
  induction b as [|x r IH]; intros i j H; simpl in H; [easy|].
  assert (Hrec : In j (pos_from (S i) r c) ->
                 i <= j /\ j < i + length (x :: r)
                 /\ nth (j - i) (x :: r) zero = c).
  { intros Hj. destruct (IH _ _ Hj) as (H1 & H2 & H3). simpl length.
    replace (j - i) with (S (j - S i)) by lia.
    repeat split; [lia | lia | exact H3]. }
  destruct (Ascii.eqb_spec x c) as [->|N]; [|now apply Hrec].
  destruct H as [<-|H]; [|now apply Hrec].
  rewrite Nat.sub_diag. simpl. repeat split; lia.
Qed.

Lemma pos_from_split (c : ascii) (b : list ascii) :
  forall i k, k < length b -> nth k b zero = c ->
    exists lt gt,
      pos_from i b c = lt ++ (i + k) :: gt
      /\ Forall (fun j => j < i + k) lt
      /\ Forall (fun j => i + k < j) gt.
Proof.
  induction b as [|x r IH]; intros i k Hk Hc; simpl in Hk; [lia|].
  destruct k as [|k]; simpl in Hc.
  - subst x. simpl. rewrite Ascii.eqb_refl.
    exists [], (pos_from (S i) r c). rewrite Nat.add_0_r.
    repeat split; [constructor|].
    apply Forall_forall. intros j Hj.
    destruct (pos_from_in _ _ _ _ Hj). lia.
  - destruct (IH (S i) k) as (lt & gt & E & Hl & Hg); [lia|exact Hc|].
    replace (S i + k) with (i + S k) in * by lia.
    simpl. destruct (Ascii.eqb x c).
    + exists (i :: lt), gt. rewrite E. repeat split; auto.
      constructor; [lia|exact Hl].
    + exists lt, gt. now rewrite E.
Qed.

End ChainB.

Section MatchingBlocksTermination.
Variables a b : list ascii.
Variable b2j : list (ascii * list nat).

Lemma j2len_prev_le (c : nat) (d : list (nat * nat)) (j : nat) :
  lens_le c d -> j2len_prev d j <= c.
Proof.
  intros H. destruct j as [|j]; simpl; [lia|].
  destruct (dict_get Nat.eqb j d) eqn:E; [|lia]. exact (H _ _ E).
Qed.

Lemma scan_row_within (alo i blo bhi : nat) (d : list (nat * nat))
    (js : list nat) :
  alo <= i -> lens_le (i - alo) d ->
  forall nd best,
    lens_le (i + 1 - alo) nd -> within alo (i + 1) best ->
    lens_le (i + 1 - alo) (fst (scan_row i blo bhi d js nd best))
    /\ within alo (i + 1) (snd (scan_row i blo bhi d js nd best)).
Proof.
  intros Hi Hd. induction js as [|j r IH]; intros nd best Hnd Hb; simpl.
  - now split.
  - destruct (j <? blo); [now apply IH|].
    destruct (bhi <=? j); [now split|].
    pose proof (j2len_prev_le _ _ j Hd) as Hk.
    apply IH.
    + intros j0 v. rewrite (dict_get_set _ Nat.eqb_spec).
      destruct (j0 =? j); [|apply Hnd].
      intros E. inversion E. lia.
    + destruct (snd best <? j2len_prev d j + 1); [|exact Hb].
      unfold within. simpl. lia.
Qed.

Lemma scan_rows_within (alo blo bhi m : nat) :
  forall i d best,
    alo <= i -> lens_le (i - alo) d -> within alo i best ->
    within alo (i + m) (scan_rows a b2j m i blo bhi d best).
Proof.
  induction m as [|m IH]; intros i d best Hi Hd Hb; simpl.
  - now rewrite Nat.add_0_r.
  - assert (Hb' : within alo (i + 1) best).
    { destruct Hb. split; lia. }
    assert (Hnil : lens_le (i + 1 - alo) []) by (intros j v; discriminate).
    destruct (scan_row_within alo i blo bhi d (b2j_get b2j (nth i a zero))
                Hi Hd [] best Hnil Hb') as [H1 H2].
    destruct (scan_row i blo bhi d (b2j_get b2j (nth i a zero)) [] best)
      as [nd best1].
    simpl in H1, H2.
    replace (i + S m) with (S i + m) by lia.
    apply IH; [lia| |].
    + replace (S i - alo) with (i + 1 - alo) by lia. exact H1.
    + replace (S i) with (i + 1) by lia. exact H2.
Qed.

Lemma extend_left_within (alo blo hi : nat) :
  forall besti bestj size,
    within alo hi (besti, bestj, size) ->
    within alo hi (extend_left a b alo blo besti bestj size).
Proof.
  induction besti as [|i IH]; intros bestj size H; simpl; [exact H|].
  destruct (Nat.ltb_spec alo (S i)); simpl; [|exact H].
  destruct (blo <? bestj); simpl; [|exact H].
  destruct (Ascii.eqb _ _); [|exact H].
  apply IH. destruct H as [H1 H2]. simpl in *. split; simpl; lia.
Qed.

Lemma extend_right_within (ahi bhi besti bestj m : nat) :
  forall size,
    besti + size <= ahi ->
    besti + extend_right a b m ahi bhi besti bestj size <= ahi.
Proof.
  induction m as [|m IH]; intros size H; simpl; [exact H|].
  destruct (Nat.ltb_spec (besti + size) ahi); simpl; [|exact H].
  destruct (bestj + size <? bhi); simpl; [|exact H].
  destruct (Ascii.eqb _ _); [|exact H].
  apply IH. lia.
Qed.

(** The match returned lies in the range of [a] it was asked for. *)
Lemma find_longest_match_within (alo ahi blo bhi : nat) :
  alo <= ahi ->
  within alo ahi (find_longest_match a b b2j alo ahi blo bhi).
Proof.
  intros H. unfold find_longest_match.
  assert (H0 : within alo (alo + (ahi - alo))
                 (scan_rows a b2j (ahi - alo) alo blo bhi []
                    (alo, blo, 0))).
  { apply scan_rows_within; [lia| |].
    - intros j v. discriminate.
    - split; simpl; lia. }
  replace (alo + (ahi - alo)) with ahi in H0 by lia.
  destruct (scan_rows a b2j (ahi - alo) alo blo bhi [] (alo, blo, 0))
    as [[bi bj] size].
  pose proof (extend_left_within alo blo ahi bi bj size H0) as H1.
  destruct (extend_left a b alo blo bi bj size) as [[bi' bj'] size'].
  destruct H1 as [H1 H2]. simpl in H1, H2.
  split; simpl; [exact H1|].
  now apply extend_right_within.
Qed.

Lemma queue_weight_cons (alo ahi blo bhi : nat)
    (queue : list (nat * nat * nat * nat)) :
  queue_weight ((alo, ahi, blo, bhi) :: queue)
  = 2 * (ahi - alo) + 1 + queue_weight queue.
Proof. reflexivity. Qed.

(** Beyond the weight of the queue, more fuel changes nothing: the loop
    has ended by itself. *)
Lemma blocks_loop_fuel (fuel1 : nat) :
  forall fuel2 queue blocks,
    queue_ok queue ->
    queue_weight queue < fuel1 -> queue_weight queue < fuel2 ->
    blocks_loop a b b2j fuel1 queue blocks
    = blocks_loop a b b2j fuel2 queue blocks.
Proof.
  induction fuel1 as [|f1 IH]; intros fuel2 queue blocks Hok H1 H2;
    [lia|].
  destruct fuel2 as [|f2]; [lia|].
  destruct queue as [|[[[alo ahi] blo] bhi] q]; [reflexivity|].
  inversion Hok as [|? ? Hle Hq]; subst. simpl in Hle.
  rewrite queue_weight_cons in H1, H2.
  cbn [blocks_loop].
  pose proof (find_longest_match_within alo ahi blo bhi Hle) as Hw.
  destruct (find_longest_match a b b2j alo ahi blo bhi) as [[i j] k].
  destruct Hw as [Hw1 Hw2]. simpl in Hw1, Hw2.
  destruct (Nat.eqb_spec k 0) as [->|Hk].
  - apply IH; [exact Hq|lia|lia].
  - destruct (Nat.ltb_spec alo i) as [Ha|Ha];
      destruct (blo <? j); cbn [andb];
      destruct (Nat.ltb_spec (i + k) ahi) as [Hb|Hb];
      destruct (j + k <? bhi); cbn [andb];
      (apply IH;
       [ repeat (constructor; [simpl; lia|]); exact Hq
       | rewrite ?queue_weight_cons; lia
       | rewrite ?queue_weight_cons; lia ]).
Qed.

End MatchingBlocksTermination.

(** [get_matching_blocks] has fuel enough: any larger amount produces the
    same blocks. *)
Lemma blocks_fuel_enough (a b : list ascii) (fuel : nat) :
  blocks_fuel a <= fuel ->
  blocks_loop a b (chain_b b) fuel [(0, length a, 0, length b)] []
  = blocks_loop a b (chain_b b) (blocks_fuel a)
      [(0, length a, 0, length b)] [].
Proof.
  intros H. apply blocks_loop_fuel.
  - repeat constructor. simpl. lia.
  - rewrite queue_weight_cons. unfold blocks_fuel in H.
    change (queue_weight []) with 0. lia.
  - rewrite queue_weight_cons. unfold blocks_fuel.
    change (queue_weight []) with 0. lia.
Qed.

Section IdenticalSequences.
Variable s : list ascii.
Variable b2j : list (ascii * list nat).
Hypothesis b2j_chain : b2j = chain_b s.

Lemma run_eq (j : nat) :
  run s b2j j = if live b2j (nth j s zero) then run_before s b2j j + 1 else 0.
Proof. destruct j; simpl; destruct (live _); reflexivity. Qed.

Lemma run_le (j : nat) : run s b2j j <= j + 1.
Proof.
  induction j as [|j IH]; simpl; destruct (live _); lia.
Qed.

Lemma scan_row_fold (i bhi : nat) (d : list (nat * nat)) (js : list nat) :
  forall nd best,
    Forall (fun j => j < bhi) js ->
    scan_row i 0 bhi d js nd best
    = (fold_left (set_len d) js nd, fold_left (pick_best i d) js best).
Proof.
  induction js as [|j r IH]; intros nd best H; simpl; [reflexivity|].
  inversion H as [|? ? Hj Hr]; subst.
  destruct (Nat.leb_spec bhi j); [lia|].
  now rewrite IH.
Qed.

Lemma fold_pick_none (i : nat) (d : list (nat * nat)) (js : list nat)
    (best : Match) :
  Forall (fun j => next_len d j <= snd best) js ->
  fold_left (pick_best i d) js best = best.
Proof.
  induction js as [|j r IH]; intros H; simpl; [reflexivity|].
  inversion H as [|? ? Hj Hr]; subst.
  assert (E : pick_best i d best j = best).
  { unfold pick_best.
    destruct (Nat.ltb_spec (snd best) (next_len d j)); [lia|reflexivity]. }
  rewrite E. now apply IH.
Qed.

Lemma fold_set_get (d : list (nat * nat)) (js : list nat) (j : nat) :
  forall nd,
    dict_get Nat.eqb j (fold_left (set_len d) js nd)
    = if in_dec Nat.eq_dec j js then Some (next_len d j)
      else dict_get Nat.eqb j nd.
Proof.
  induction js as [|j0 r IH]; intros nd; simpl; [reflexivity|].
  rewrite IH. unfold set_len.
  rewrite (dict_get_set _ Nat.eqb_spec).
  destruct (in_dec Nat.eq_dec j r) as [Hi|Hn].
  - destruct (Nat.eq_dec j0 j); reflexivity.
  - destruct (Nat.eqb_spec j j0) as [->|N].
    + destruct (Nat.eq_dec j0 j0); [reflexivity|congruence].
    + destruct (Nat.eq_dec j0 j); [congruence|reflexivity].
Qed.

Lemma j2len_prev_nil (j : nat) : j2len_prev [] j = 0.
Proof. now destruct j. Qed.

Lemma row_inv_start : row_inv s b2j 0 [] (0, 0, 0).
Proof.
  unfold row_inv. simpl. repeat split; try lia.
  - intros j. rewrite j2len_prev_nil. lia.
  - intros j. rewrite j2len_prev_nil. lia.
Qed.

Lemma row_inv_step (i : nat) (d : list (nat * nat)) (best : Match) :
  i < length s -> row_inv s b2j i d best ->
  row_inv s b2j (S i)
    (fst (scan_row i 0 (length s) d (b2j_get b2j (nth i s zero)) [] best))
    (snd (scan_row i 0 (length s) d (b2j_get b2j (nth i s zero)) [] best)).
Proof.
  intros Hi (Ha & Hb & He & Hc & Hd & Hf).
  pose proof (run_eq i) as Ri. unfold live in Ri.
  destruct (b2j_get_chain_b s (nth i s zero)) as [E|E];
    rewrite <- b2j_chain in E; rewrite E in *.
  - (* a popular element: the row is empty *)
    simpl. unfold row_inv. simpl run_before.
    repeat split; try assumption; try lia.
    + intros j. rewrite j2len_prev_nil. lia.
    + intros j. rewrite j2len_prev_nil. lia.
    + simpl. lia.
    + intros j Hj. destruct (Nat.eq_dec j i) as [->|N]; [lia|].
      apply Hc. lia.
  - (* all the positions of the element *)
    destruct (pos_from_split (nth i s zero) s 0 i Hi eq_refl)
      as (lt & gt & Ejs & Hlt & Hgt).
    simpl in Ejs, Hlt, Hgt.
    assert (Hin : forall j, In j (pos_from 0 s (nth i s zero)) ->
                            j < length s /\ next_len d j <= run s b2j j
                            /\ next_len d j <= run s b2j i).
    { intros j Hj. destruct (pos_from_in _ _ _ _ Hj) as (_ & H2 & H3).
      rewrite Nat.sub_0_r in H3. simpl in H2. split; [exact H2|].
      assert (Hl : live b2j (nth j s zero) = true).
      { rewrite H3. unfold live. rewrite E.
        rewrite Ejs. now destruct lt. }
      assert (Hli : live b2j (nth i s zero) = true).
      { unfold live. rewrite E, Ejs. now destruct lt. }
      rewrite (run_eq j), Hl, (run_eq i), Hli. unfold next_len.
      specialize (Ha j). specialize (Hb j). lia. }
    assert (Hli : run s b2j i = run_before s b2j i + 1).
    { rewrite Ejs in Ri. destruct lt; exact Ri. }
    rewrite scan_row_fold.
    2:{ apply Forall_forall. intros j Hj. now apply Hin. }
    cbn [fst snd].
    assert (Hbest : fold_left (pick_best i d)
                      (pos_from 0 s (nth i s zero)) best
                    = pick_best i d best i).
    { rewrite Ejs, fold_left_app. cbn [fold_left].
      rewrite (fold_pick_none i d lt best).
      - apply fold_pick_none. apply Forall_forall. intros j Hj.
        assert (Hj' : In j (pos_from 0 s (nth i s zero))).
        { rewrite Ejs. apply in_or_app. right. now right. }
        destruct (Hin _ Hj') as (_ & _ & H3).
        unfold pick_best, next_len in *. rewrite He.
        destruct (Nat.ltb_spec (snd best) (run_before s b2j i + 1));
          simpl; lia.
      - apply Forall_forall. intros j Hj.
        assert (Hj' : In j (pos_from 0 s (nth i s zero))).
        { rewrite Ejs. apply in_or_app. now left. }
        destruct (Hin _ Hj') as (_ & H2 & _).
        rewrite Forall_forall in Hlt. specialize (Hc j (Hlt j Hj)). lia. }
    rewrite Hbest.
    assert (Hget : forall j,
               j2len_prev
                 (fold_left (set_len d) (pos_from 0 s (nth i s zero)) [])
                 (S j)
               = if in_dec Nat.eq_dec j (pos_from 0 s (nth i s zero))
                 then next_len d j else 0).
    { intros j. unfold j2len_prev. rewrite fold_set_get.
      now destruct (in_dec _ _ _). }
    assert (Hii : In i (pos_from 0 s (nth i s zero))).
    { rewrite Ejs. apply in_or_app. right. now left. }
    pose proof (run_le i) as Rle.
    unfold row_inv. repeat split.
    + intros [|j]; [simpl; lia|]. rewrite Hget. simpl run_before.
      destruct (in_dec _ _ _) as [Hj|]; [|lia]. now apply Hin.
    + intros [|j]; [simpl; lia|]. rewrite Hget. simpl run_before.
      destruct (in_dec _ _ _) as [Hj|]; [|lia]. now apply Hin.
    + rewrite Hget. simpl run_before.
      destruct (in_dec _ _ _) as [_|N]; [|contradiction].
      unfold next_len. lia.
    + intros j Hj. unfold pick_best, next_len. rewrite He.
      destruct (Nat.ltb_spec (snd best) (run_before s b2j i + 1)); simpl.
      * destruct (Nat.eq_dec j i) as [->|N]; [lia|].
        specialize (Hc j). lia.
      * destruct (Nat.eq_dec j i) as [->|N]; [lia|].
        specialize (Hc j). lia.
    + unfold pick_best.
      destruct (snd best <? next_len d i); [reflexivity|exact Hd].
    + unfold pick_best, next_len. rewrite He.
      destruct (Nat.ltb_spec (snd best) (run_before s b2j i + 1)); simpl; lia.
Qed.

Lemma scan_rows_inv (m : nat) :
  forall i d best,
    i + m = length s -> row_inv s b2j i d best ->
    let best' := scan_rows s b2j m i 0 (length s) d best in
    fst (fst best') = snd (fst best')
    /\ fst (fst best') + snd best' <= length s.
Proof.
  induction m as [|m IH]; intros i d best Hn Hinv; simpl.
  - destruct Hinv as (_ & _ & _ & _ & Hd & Hf). split; [exact Hd|lia].
  - pose proof (row_inv_step i d best) as Hs.
    destruct (scan_row i 0 (length s) d (b2j_get b2j (nth i s zero))
                [] best)
      as [nd best1].
    apply IH; [lia|]. apply Hs; [lia|exact Hinv].
Qed.

Lemma extend_left_identical (x : nat) :
  forall size, extend_left s s 0 0 x x size = (0, 0, size + x).
Proof.
  induction x as [|x IH]; intros size; simpl.
  - now rewrite Nat.add_0_r.
  - rewrite Nat.sub_0_r, Ascii.eqb_refl. simpl.
    rewrite IH. f_equal. lia.
Qed.

Lemma extend_right_identical (m : nat) :
  forall size, size + m = length s ->
               extend_right s s m (length s) (length s) 0 0 size
               = length s.
Proof.
  induction m as [|m IH]; intros size H; simpl; [lia|].
  destruct (Nat.ltb_spec size (length s)); [|lia].
  rewrite Ascii.eqb_refl. simpl. apply IH. lia.
Qed.

(** On two copies of one sequence the longest match is the whole
    sequence, also when popular elements were purged. *)
Lemma find_longest_match_identical :
  find_longest_match s s b2j 0 (length s) 0 (length s)
  = (0, 0, length s).
Proof.
  unfold find_longest_match. rewrite Nat.sub_0_r.
  pose proof (scan_rows_inv (length s) 0 [] (0, 0, 0) eq_refl
                row_inv_start) as H.
  cbv zeta in H.
  destruct (scan_rows s b2j (length s) 0 0 (length s) [] (0, 0, 0))
    as [[bi bj] size].
  simpl in H. destruct H as [<- Hle].
  rewrite extend_left_identical. simpl.
  rewrite extend_right_identical; [reflexivity|lia].
Qed.

End IdenticalSequences.

Section Scorer.

Lemma blocks_loop_identical (s : list ascii) (fuel : nat) :
  s <> [] ->
  blocks_loop s s (chain_b s) (S (S fuel))
    [(0, length s, 0, length s)] []
  = [(0, 0, length s)].
Proof.
  intros Hs. cbn [blocks_loop].
  rewrite (find_longest_match_identical s (chain_b s) eq_refl).
  destruct s as [|c r]; [congruence|]. simpl length.
  change (0 + S (length r)) with (S (length r)).
  rewrite Nat.ltb_irrefl. reflexivity.
Qed.

Lemma get_matching_blocks_identical (s : list ascii) :
  s <> [] ->
  get_matching_blocks s s
  = [(0, 0, length s); (length s, length s, 0)].
Proof.
  intros Hs. unfold get_matching_blocks, blocks_fuel.
  replace (2 * length s + 2) with (S (S (2 * length s))) by lia.
  rewrite (blocks_loop_identical s _ Hs).
  destruct s as [|c r]; [congruence|]. reflexivity.
Qed.

Lemma calculate_ratio_all (m : nat) :
  m <> 0 -> calculate_ratio m (m + m) = 1%Q.
Proof.
  intros Hm. unfold calculate_ratio.
  destruct (Nat.eqb_spec (m + m) 0); [lia|].
  change 1%Q with (Qred 1). apply Qred_complete.
  assert (E : Z.pos (Pos.of_nat (m + m)) = Z.of_nat (m + m)).
  { rewrite <- (positive_nat_Z (Pos.of_nat (m + m))).
    now rewrite Nat2Pos.id by lia. }
  unfold Qeq. cbn [Qnum Qden]. rewrite E. lia.
Qed.

Lemma nonempty_list_ascii (t : string) :
  t <> "" -> list_ascii_of_string t <> [].
Proof. destruct t; simpl; congruence. Qed.

(** [ratio()] of a non-empty string with itself. *)
Lemma ratio_identical (t : string) : t <> "" -> ratio t t = 1%Q.
Proof.
  intros Ht. unfold ratio.
  pose proof (nonempty_list_ascii t Ht) as Hs.
  rewrite (get_matching_blocks_identical _ Hs). simpl.
  rewrite Nat.add_0_r. apply calculate_ratio_all.
  destruct (list_ascii_of_string t); simpl; congruence.
Qed.

(** C5, as stated, fails: a non-empty string of punctuation normalizes
    to the empty string, whose score with itself is 0. *)
Lemma identity_score_counterexample :
  "!" <> ""
  /\ title_similarity (Some (normalize_string (Some "!")))
                      (Some (normalize_string (Some "!"))) = 0%Q.
Proof. split; [discriminate|reflexivity]. Qed.

(** C5, amended: for every string whose normalized form is not empty, the
    similarity score of the normalized string with itself is exactly
    1.0. *)
Theorem identity_score (s : string) :
  normalize_string (Some s) <> "" ->
  title_similarity (Some (normalize_string (Some s)))
                   (Some (normalize_string (Some s))) = 1%Q.
Proof.
  intros H. unfold title_similarity.
  rewrite normalize_string_idempotent.
  apply nonempty_true in H as H'. rewrite H'. simpl.
  now apply ratio_identical.
Qed.

Lemma identity_score_witness :
  title_similarity (Some (normalize_string (Some "Drift, in Clouds!")))
                   (Some (normalize_string (Some "Drift, in Clouds!")))
  = 1%Q.
Proof. apply identity_score. vm_compute. discriminate. Defined.

(** C6, as stated, fails: the score depends on the order of the
    arguments. *)
Lemma similarity_commutative_counterexample :
  title_similarity (Some "tide") (Some "diet") = (1 # 4)%Q
  /\ title_similarity (Some "diet") (Some "tide") = (1 # 2)%Q.
Proof. split; vm_compute; reflexivity. Qed.

(** C6, amended: the two orders give the same score when the normalized
    titles are equal, and when either normalized title is empty. *)
Theorem similarity_commutative_when (a b : option string) :
  normalize_string a = normalize_string b
  \/ normalize_string a = "" \/ normalize_string b = "" ->
  title_similarity a b = title_similarity b a.
Proof.
  unfold title_similarity. intros [E|[E|E]].
  - now rewrite E.
  - rewrite E. simpl. now rewrite orb_true_r.
  - rewrite E. simpl. now rewrite orb_true_r.
Qed.

Lemma similarity_commutative_when_witness :
  title_similarity (Some "Drift in Clouds") (Some "drift, in clouds!")
  = title_similarity (Some "drift, in clouds!") (Some "Drift in Clouds").
Proof. apply similarity_commutative_when. left. reflexivity. Defined.

End Scorer.

(* ================================================================== *)
(** * The reference resolver *)
(* ================================================================== *)

Section Resolver.

Lemma scan_included_row (t : string) (m : pdf_map) (r : row)
    (rest : list row) :
  scan_included t m (r :: rest)
  = match included_row t m r with
    | Hit f => Ok (Some f)
    | Miss => scan_included t m rest
    | Fails => Raise ValueError
    end.
Proof.
  unfold included_row. simpl.
  destruct (included_test t r); [|reflexivity].
  destruct (nonempty _ && isdigit _); [|reflexivity].
  destruct (int _); [|reflexivity].
  destruct (dict_get Nat.eqb n m); reflexivity.
Qed.

Lemma scan_included_first_hit (t : string) (m : pdf_map)
    (pre post : list row) (r : row) (f : string) :
  Forall (fun r' => included_row t m r' = Miss) pre ->
  included_row t m r = Hit f ->
  scan_included t m (pre ++ r :: post) = Ok (Some f).
Proof.
  intros Hpre Hr. induction Hpre as [|r' pre' Hm _ IH].
  - simpl app. now rewrite scan_included_row, Hr.
  - rewrite <- app_comm_cons, scan_included_row, Hm. exact IH.
Qed.

Lemma scan_csv_id (t : string) (csv_papers : list row)
    (target : option string) :
  scan_csv t csv_papers target = target.
Proof.
  induction csv_papers as [|r rest IH]; simpl; [reflexivity|].
  now destruct (contains _ _).
Qed.

Lemma contains_empty (s : string) : contains "" s = true.
Proof. now destruct s. Qed.

(** A row without a title passes the test of the higher-priority pool,
    whatever the title searched for. *)
Lemma included_test_empty_title (t : string) (r : row) :
  row_get "Title" r = "" -> included_test t r = true.
Proof.
  intros E. unfold included_test. rewrite E. simpl lower.
  rewrite contains_empty. apply orb_true_r.
Qed.

(** C8, as stated, fails: a title that only a row of the secondary pool
    contains is not resolved to the document of that row. *)
Lemma secondary_pool_counterexample :
  let ref_text :=
    ("[3] A. Author, " ++ String dquote "Multi-Cloud Drift Detection"
     ++ String dquote " 2021.")%string in
  let candidate :=
    [("Paper Title", "Multi-Cloud Drift Detection Techniques");
     ("Paper Number", "3")] in
  let m := [(3, "3-paper.pdf")] in
  title_match ref_text = Some "Multi-Cloud Drift Detection"
  /\ csv_test "Multi-Cloud Drift Detection" candidate = true
  /\ dict_get Nat.eqb 3 m = Some "3-paper.pdf"
  /\ resolve_reference ref_text [] [candidate] m = Ok None.
Proof. repeat split; vm_compute; reflexivity. Qed.

(** C8, amended: for every citation text from which a quoted title is
    extracted, the resolver tests case-insensitive containment in both
    directions against the higher-priority pool, and resolves to the
    document of the first row that passes the test with a paper number
    found in the PDF map, when the rows before it are passed over; the
    secondary pool never yields a match: the result is the same for every
    secondary pool. *)
Theorem structural_match_included (ref_text t : string)
    (pre post csv_papers : list row) (r : row) (m : pdf_map) (f : string) :
  title_match ref_text = Some t ->
  Forall (fun r' => included_row t m r' = Miss) pre ->
  included_row t m r = Hit f ->
  f <> "" ->
  included_test t r = true
  /\ resolve_reference ref_text (pre ++ r :: post) csv_papers m
     = Ok (Some f)
  /\ forall included_papers csv1 csv2,
       resolve_reference ref_text included_papers csv1 m
       = resolve_reference ref_text included_papers csv2 m.
Proof.
  intros Ht Hpre Hr Hf. repeat split.
  - unfold included_row in Hr.
    destruct (included_test t r); [reflexivity|discriminate].
  - unfold resolve_reference, resolve_title, structural. rewrite Ht.
    rewrite (scan_included_first_hit _ _ _ _ _ _ Hpre Hr).
    apply nonempty_true in Hf. unfold fallback. cbn [truthy].
  rewrite Hf. cbn [negb truthy]. now rewrite Hf.
  - intros inc csv1 csv2.
    unfold resolve_reference, resolve_title, structural. rewrite Ht.
    destruct (scan_included t m inc) as [target|e]; [|reflexivity].
    now rewrite !scan_csv_id.
Qed.

Lemma structural_match_included_witness :
  let ref_text :=
    ("[3] A. Author, "
     ++ String dquote "Multi-Cloud Drift Detection Techniques,"
     ++ String dquote " 2021.")%string in
  let skipped := [("Title", "Edge Caching"); ("Paper Number", "7")] in
  let r :=
    [("Title", "Multi-Cloud Drift Detection Techniques");
     ("Paper Number", " 3 ")] in
  included_test "Multi-Cloud Drift Detection Techniques," r = true
  /\ resolve_reference ref_text ([skipped] ++ r :: []) []
       [(3, "3-paper.pdf")] = Ok (Some "3-paper.pdf")
  /\ forall included_papers csv1 csv2,
       resolve_reference ref_text included_papers csv1 [(3, "3-paper.pdf")]
       = resolve_reference ref_text included_papers csv2
           [(3, "3-paper.pdf")].
Proof.
  apply (structural_match_included _
           "Multi-Cloud Drift Detection Techniques,").
  - reflexivity.
  - repeat constructor.
  - reflexivity.
  - discriminate.
Defined.

Lemma best_loop_max (tokens : list string) (m : pdf_map) :
  forall best target,
    best_loop tokens m best target
    = if (best <? max_score tokens m) && (2 <=? max_score tokens m)
      then first_with_score tokens (max_score tokens m) m
      else target.
Proof.
  induction m as [|[p f] r IH]; intros best target; [reflexivity|].
  cbn [best_loop max_score fold_right first_with_score snd].
  fold (max_score tokens r).
  set (sc := score tokens f). set (M := max_score tokens r).
  destruct (Nat.ltb_spec best sc) as [H1|H1];
    destruct (Nat.leb_spec 2 sc) as [H2|H2]; cbn [andb]; rewrite IH;
    fold M;
    destruct (Nat.ltb_spec best (Nat.max sc M)) as [H3|H3];
    destruct (Nat.leb_spec 2 (Nat.max sc M)) as [H4|H4];
    destruct (Nat.ltb_spec sc M) as [H5|H5];
    destruct (Nat.ltb_spec best M) as [H6|H6];
    destruct (Nat.leb_spec 2 M) as [H7|H7];
    destruct (Nat.eqb_spec sc (Nat.max sc M)) as [H8|H8];
    cbn [andb]; try lia; try reflexivity;
    try (replace (Nat.max sc M) with M by lia; reflexivity).
Qed.

(** ** The tokens of the title *)

Lemma split_nonword_starts (s : string) :
  starts_nonword s = true -> exists xs, split_nonword s = "" :: xs.
Proof.
  induction s as [|c r IH]; [discriminate|].
  cbn [starts_nonword split_nonword]. intros H.
  apply negb_true_iff in H. rewrite H.
  destruct (starts_nonword r); [now apply IH|eexists; reflexivity].
Qed.

(** The words of a string are the non-empty pieces of [re.split]. *)
Lemma words_from_split (s : string) :
  forall cur,
    words_from cur s
    = filter nonempty
        match split_nonword s with
        | x :: xs => (cur ++ x)%string :: xs
        | [] => [cur]
        end.
Proof.
  induction s as [|c r IH]; intros cur.
  - cbn [words_from split_nonword filter]. rewrite string_app_nil_r.
    now destruct (nonempty cur).
  - cbn [words_from split_nonword].
    destruct (is_word c).
    + rewrite IH. destruct (split_nonword r) as [|x xs].
      * reflexivity.
      * now rewrite string_app_assoc.
    + assert (E : filter nonempty
                    match
                      (if starts_nonword r then split_nonword r
                       else "" :: split_nonword r)
                    with
                    | x :: xs => (cur ++ x)%string :: xs
                    | [] => [cur]
                    end
                  = (if nonempty cur then [cur] else [])
                    ++ words_from "" r).
      { rewrite IH. destruct (starts_nonword r) eqn:Es.
        - destruct (split_nonword_starts _ Es) as [xs ->].
          cbn [filter append nonempty]. rewrite string_app_nil_r.
          now destruct (nonempty cur).
        - rewrite string_app_nil_r.
          destruct (split_nonword r) as [|x xs]; cbn [filter append nonempty];
            now destruct (nonempty cur). }
      rewrite E. now destruct (nonempty cur).
Qed.

Lemma filter_long_nonempty (l : list string) :
  filter (fun w => 4 <? String.length w) (filter nonempty l)
  = filter (fun w => 4 <? String.length w) l.
Proof.
  induction l as [|w r IH]; [reflexivity|].
  cbn [filter]. destruct w as [|c w'].
  - cbn [nonempty String.length]. exact IH.
  - cbn [nonempty filter]. now rewrite IH.
Qed.

(** The tokens of the code are the words of the title that are longer
    than 4 characters. *)
Lemma title_tokens_long_words (t : string) : title_tokens t = long_words t.
Proof.
  unfold title_tokens, long_words. rewrite words_from_split.
  rewrite filter_long_nonempty.
  now destruct (split_nonword t).
Qed.

(** ** The score *)

Lemma prefix_occurs (x y : string) :
  prefix x y = true <-> exists post, y = (x ++ post)%string.
Proof.
  revert y. induction x as [|a x' IH]; intros y.
  - split; [intros _; now exists y|intros _; now destruct y].
  - destruct y as [|b y']; cbn [prefix].
    + split; [discriminate|intros [post E]; discriminate E].
    + destruct (ascii_dec a b) as [->|N].
      * rewrite IH. split; intros [post E]; exists post.
        -- simpl. now rewrite E.
        -- simpl in E. now inversion E.
      * split; [discriminate|].
        intros [post E]. simpl in E. congruence.
Qed.

(** [sub in s] holds exactly when [sub] occurs in [s]. *)
Lemma contains_occurs (x y : string) :
  contains x y = true <-> occurs_in x y.
Proof.
  unfold occurs_in. induction y as [|b y' IH].
  - cbn [contains]. rewrite orb_false_r, prefix_occurs. split.
    + intros [post E]. now exists "", post.
    + intros (pre & post & E). destruct pre; [now exists post|discriminate E].
  - cbn [contains]. rewrite orb_true_iff, prefix_occurs, IH. split.
    + intros [[post E]|(pre & post & E)].
      * now exists "", post.
      * exists (String b pre), post. simpl. now rewrite E.
    + intros (pre & post & E). destruct pre as [|a pre'].
      * left. now exists post.
      * right. simpl in E. inversion E. now exists pre', post.
Qed.

(** The score of a file name is the number of the tokens that occur in
    it, case-insensitively. *)
Lemma score_counts (tokens : list string) (p_file : string) :
  counts (occurs_nocase p_file) tokens (score tokens p_file).
Proof.
  unfold score. induction tokens as [|w r IH]; [constructor|].
  cbn [filter].
  destruct (contains (lower w) (lower p_file)) eqn:E.
  - cbn [length]. constructor; [|exact IH]. now apply contains_occurs.
  - apply counts_no; [|exact IH].
    intros H. apply contains_occurs in H. congruence.
Qed.

(** ** The selection *)

Lemma max_score_ge (tokens : list string) (m : pdf_map) :
  Forall (fun e => score tokens (snd e) <= max_score tokens m) m.
Proof.
  induction m as [|e r IH]; constructor.
  - cbn [max_score fold_right]. lia.
  - cbn [max_score fold_right]. fold (max_score tokens r).
    eapply Forall_impl; [|exact IH]. cbn beta. intros a H. lia.
Qed.

Lemma max_score_attained (tokens : list string) (m : pdf_map) :
  0 < max_score tokens m ->
  exists e, In e m /\ score tokens (snd e) = max_score tokens m.
Proof.
  induction m as [|e r IH]; cbn [max_score fold_right]; [lia|].
  fold (max_score tokens r). intros H.
  destruct (Nat.le_gt_cases (max_score tokens r) (score tokens (snd e)))
    as [L|L].
  - exists e. split; [now left|lia].
  - destruct IH as (e' & Hi & E); [lia|].
    exists e'. split; [now right|lia].
Qed.

Lemma first_with_score_split (tokens : list string) (sc : nat)
    (m : pdf_map) :
  (exists e, In e m /\ score tokens (snd e) = sc) ->
  exists pre p f post,
    m = pre ++ (p, f) :: post
    /\ score tokens f = sc
    /\ Forall (fun e => score tokens (snd e) <> sc) pre
    /\ first_with_score tokens sc m = Some f.
Proof.
  induction m as [|[p f] r IH]; intros (e & Hi & E); [destruct Hi|].
  cbn [first_with_score].
  destruct (Nat.eqb_spec (score tokens f) sc) as [Ef|Nf].
  - exists [], p, f, r. repeat split; [exact Ef|constructor].
  - destruct IH as (pre & p' & f' & post & -> & Ef' & Hpre & Hf).
    { destruct Hi as [<-|Hi]; [contradiction|]. now exists e. }
    exists ((p, f) :: pre), p', f', post.
    repeat split; [exact Ef'| |exact Hf].
    constructor; [exact Nf|exact Hpre].
Qed.

(** The loop over the file names selects the first document with the
    highest score, when that score is at least 2. *)
Lemma best_loop_first_best (tokens : list string) (m : pdf_map) :
  first_best (score tokens) m (best_loop tokens m 0 None).
Proof.
  rewrite best_loop_max.
  pose proof (max_score_ge tokens m) as Hge.
  destruct (Nat.leb_spec 2 (max_score tokens m)) as [H|H].
  - destruct (Nat.ltb_spec 0 (max_score tokens m)) as [H0|H0]; [|lia].
    cbn [andb].
    destruct (first_with_score_split tokens _ m
                (max_score_attained tokens m H0))
      as (pre & p & f & post & E & Ef & Hpre & ->).
    cbn [first_best]. exists pre, p, post. rewrite Ef.
    pose proof Hge as Hge'. rewrite E in Hge'.
    apply Forall_app in Hge' as [Hge1 Hge2].
    inversion Hge2 as [|x l _ Hge3]. rewrite <- E in Hge1, Hge3.
    repeat split; [exact E|exact H| |exact Hge3].
    apply Forall_forall. intros e Hi.
    pose proof (proj1 (Forall_forall _ _) Hge1 e Hi) as L.
    pose proof (proj1 (Forall_forall _ _) Hpre e Hi) as N.
    cbn beta in L, N. lia.
  - rewrite andb_false_r. cbn [first_best].
    eapply Forall_impl; [|exact Hge]. cbn beta. intros a L. lia.
Qed.

Lemma best_loop_low (tokens : list string) (m : pdf_map) :
  (forall p f, In (p, f) m -> score tokens f < 2) ->
  best_loop tokens m 0 None = None.
Proof.
  intros Hlow. rewrite best_loop_max.
  destruct (Nat.leb_spec 2 (max_score tokens m)) as [H|H];
    [|now rewrite andb_false_r].
  destruct (max_score_attained tokens m) as ([p f] & Hi & E); [lia|].
  pose proof (Hlow p f Hi). simpl in E. lia.
Qed.

(** C9: when the scan of the pools ends without a match for the
    extracted title, the tokens are the words of the title longer than 4
    characters; the score of a document is the number of the tokens that
    occur in its file name, case-insensitively; the resolver returns,
    without an exception, the first document with the highest score when
    that score is at least 2, and is unresolved when no document reaches
    2. *)
Theorem token_overlap_fallback (ref_text t : string)
    (included_papers csv_papers : list row) (m : pdf_map) :
  title_match ref_text = Some t ->
  scan_included t m included_papers = Ok None ->
  title_tokens t = long_words t
  /\ (forall p_file,
        counts (occurs_nocase p_file) (long_words t)
               (score (title_tokens t) p_file))
  /\ (exists r,
        resolve_reference ref_text included_papers csv_papers m = Ok r
        /\ first_best (score (title_tokens t)) m r)
  /\ ((forall p f, In (p, f) m -> score (title_tokens t) f < 2) ->
      resolve_reference ref_text included_papers csv_papers m = Ok None).
Proof.
  intros Ht Hscan.
  assert (E : resolve_reference ref_text included_papers csv_papers m
              = Ok (best_loop (title_tokens t) m 0 None)).
  { unfold resolve_reference, resolve_title, structural.
    rewrite Ht, Hscan. cbn [truthy negb]. rewrite scan_csv_id.
    reflexivity. }
  split; [apply title_tokens_long_words|]. split; [|split].
  - intros p_file. rewrite <- title_tokens_long_words. apply score_counts.
  - exists (best_loop (title_tokens t) m 0 None).
    split; [exact E|apply best_loop_first_best].
  - intros Hlow. rewrite E. f_equal. now apply best_loop_low.
Qed.

Lemma token_overlap_fallback_witness :
  let ref_text :=
    ("[5] B. Lee, " ++ String dquote "Cloud Drift Remediation Survey"
     ++ String dquote ", 2022.")%string in
  let m := [(1, "1-cloud-costs.pdf"); (2, "2-Drift_Remediation.pdf");
            (4, "4-remediation-of-drift.pdf")] in
  long_words "Cloud Drift Remediation Survey"
  = ["Cloud"; "Drift"; "Remediation"; "Survey"]
  /\ map (fun e => score (title_tokens "Cloud Drift Remediation Survey")
                         (snd e)) m = [1; 2; 2]
  /\ resolve_reference ref_text [] [] m = Ok (Some "2-Drift_Remediation.pdf")
  /\ first_best (score (title_tokens "Cloud Drift Remediation Survey")) m
       (Some "2-Drift_Remediation.pdf").
Proof.
  intros ref_text m.
  destruct (token_overlap_fallback ref_text "Cloud Drift Remediation Survey"
              [] [] m eq_refl eq_refl) as (Htok & _ & (r & Hr & Hbest) & _).
  assert (E : resolve_reference ref_text [] [] m
              = Ok (Some "2-Drift_Remediation.pdf"))
    by (vm_compute; reflexivity).
  rewrite E in Hr. injection Hr as <-.
  split; [rewrite <- Htok; vm_compute; reflexivity|].
  split; [vm_compute; reflexivity|]. split; [exact E|exact Hbest].
Defined.

(** The first half of C10 and its consequence, on a pool in which no row
    before the one without a title makes [int] raise. *)
Lemma empty_title_row_resolves (ref_text t : string)
    (pre post csv_papers : list row) (r : row) (m : pdf_map) (f : string) :
  title_match ref_text = Some t ->
  row_get "Title" r = "" ->
  Forall (fun r' => included_row t m r' = Miss) pre ->
  included_row t m r = Hit f ->
  f <> "" ->
  resolve_reference ref_text (pre ++ r :: post) csv_papers m
  = Ok (Some f).
Proof.
  intros Ht _ Hpre Hr Hf.
  unfold resolve_reference, resolve_title, structural. rewrite Ht.
  rewrite (scan_included_first_hit _ _ _ _ _ _ Hpre Hr).
  apply nonempty_true in Hf. unfold fallback. cbn [truthy].
  rewrite Hf. cbn [negb truthy]. now rewrite Hf.
Qed.

(** C10 at an input on which the code departs from it: the second row
    has no title, passes the containment test and its paper number 3 is
    in the PDF map; the first row passes the test too, and its paper
    number, the superscript two, is accepted by [isdigit] and refused by
    [int]: the resolver raises [ValueError] instead of resolving to the
    document of the second row. *)
Lemma empty_title_row_failing_input :
  let ref_text :=
    ("[1] A. Author, " ++ String dquote "Drift Detection"
     ++ String dquote ", 2021.")%string in
  let first :=
    [("Title", "Drift Detection");
     ("Paper Number", String (ascii_of_nat 178) "")] in
  let second := [("Title", ""); ("Paper Number", "3")] in
  let m := [(3, "3-paper.pdf")] in
  title_match ref_text = Some "Drift Detection"
  /\ included_row "Drift Detection" m first = Fails
  /\ included_row "Drift Detection" m second = Hit "3-paper.pdf"
  /\ isdigit (String (ascii_of_nat 178) "") = true
  /\ resolve_reference ref_text [first; second] [] m = Raise ValueError.
Proof. repeat split; vm_compute; reflexivity. Qed.

(** File names of [load_pdf_map] are not empty. *)
Lemma dict_set_names (num : nat) (f : string) (m : pdf_map) :
  f <> "" -> names_nonempty m -> names_nonempty (dict_set Nat.eqb num f m).
Proof.
  intros Hf. induction m as [|[k v] r IH]; intros Hm n0 f0 Hi.
  - simpl in Hi. destruct Hi as [E|[]]. now inversion E; subst.
  - simpl in Hi. destruct (num =? k).
    + destruct Hi as [E|Hi]; [now inversion E; subst|].
      apply (Hm n0). now right.
    + destruct Hi as [E|Hi].
      * apply (Hm n0). left. exact E.
      * apply (IH (fun n1 f1 H => Hm n1 f1 (or_intror H)) n0 f0 Hi).
Qed.

Lemma endswith_nonempty (f : string) :
  endswith ".pdf" (lower f) = true -> f <> "".
Proof. intros H E. subst f. discriminate H. Qed.

Lemma load_pdf_map_names (listing : list string) :
  names_nonempty (load_pdf_map listing).
Proof.
  unfold load_pdf_map.
  assert (H : forall m, names_nonempty m ->
                        names_nonempty (load_pdf_loop listing m)).
  { induction listing as [|f r IH]; intros m Hm; simpl; [exact Hm|].
    destruct (endswith ".pdf" (lower f)) eqn:E; [|now apply IH].
    destruct (leading_number f); [|now apply IH].
    apply IH, dict_set_names; [|exact Hm].
    now apply endswith_nonempty. }
  apply H. intros n f [].
Qed.

End Resolver.

(* ================================================================== *)
(** * Further properties of the normalizer and of the classifier *)
(* ================================================================== *)

Section NormalizerProperties.

Lemma normalize_string_kept_tidy (s : option string) :
  all_chars kept (normalize_string s) = true
  /\ tidy false (normalize_string s) = true.
Proof.
  destruct s as [s|]; [|split; reflexivity].
  unfold normalize_string.
  destruct (nonempty s); cbn [negb]; [|split; reflexivity].
  split.
  - unfold strip. apply rstrip_kept, lstrip_kept. unfold sub_spaces.
    apply sub_spaces_kept, sub_nonword_kept, lower_all_lowered.
  - unfold strip. apply rstrip_tidy, (lstrip_tidy _ false).
    unfold sub_spaces. apply sub_spaces_tidy.
Qed.

Lemma kept_tidy_normal (r : string) :
  forall b, all_chars kept r = true -> tidy b r = true ->
            all_chars normal_char r = true.
Proof.
  induction r as [|c r IH]; intros b Hk Ht; [reflexivity|].
  simpl in Hk, Ht |- *.
  apply andb_true_iff in Hk as [Hc Hr].
  unfold kept in Hc. apply andb_true_iff in Hc as [Hl Hw].
  unfold lowered in Hl. unfold normal_char.
  destruct (isspace c) eqn:Es.
  - apply andb_true_iff in Ht as [Hcb Ht].
    apply andb_true_iff in Hcb as [Hc _].
    rewrite Hc. simpl. exact (IH true Hr Ht).
  - rewrite orb_false_r in Hw. rewrite Hw, Hl, orb_true_r. simpl.
    exact (IH false Hr Ht).
Qed.

Lemma tidy_no_double_space (r : string) :
  forall b, tidy b r = true -> contains "  " r = false.
Proof.
  induction r as [|c r IH]; intros b Ht; [reflexivity|].
  cbn [contains]. apply orb_false_iff. split.
  - destruct r as [|c2 r2]; cbn [prefix].
    + destruct (ascii_dec " " c); reflexivity.
    + destruct (ascii_dec " " c) as [<-|]; [|reflexivity].
      destruct (ascii_dec " " c2) as [<-|]; [|reflexivity].
      simpl in Ht. destruct b; discriminate Ht.
  - simpl in Ht. destruct (isspace c).
    + apply andb_true_iff in Ht as [_ Ht]. exact (IH true Ht).
    + exact (IH false Ht).
Qed.

Lemma normalize_string_stripped (s : option string) :
  strip (normalize_string s) = normalize_string s.
Proof.
  destruct s as [s|]; [|reflexivity].
  unfold normalize_string.
  destruct (nonempty s); cbn [negb]; [apply strip_idem|reflexivity].
Qed.

(** X1: normalizing an already normalized string changes nothing. *)
Theorem normalize_string_twice (s : option string) :
  normalize_string (Some (normalize_string s)) = normalize_string s.
Proof. apply normalize_string_idempotent. Qed.

(** X2: a normalized string consists of lowercase word characters and
    single spaces: every character is a space or a word character that
    [lower] leaves unchanged, no two spaces are adjacent, and there is no
    whitespace at either end. *)
Theorem normalize_string_shape (s : option string) :
  all_chars normal_char (normalize_string s) = true
  /\ contains "  " (normalize_string s) = false
  /\ strip (normalize_string s) = normalize_string s.
Proof.
  destruct (normalize_string_kept_tidy s) as [Hk Ht].
  repeat split.
  - exact (kept_tidy_normal _ false Hk Ht).
  - exact (tidy_no_double_space _ false Ht).
  - apply normalize_string_stripped.
Qed.

(** X3: scoring two titles is scoring their normalized forms. *)
Theorem title_similarity_normalized (a b : option string) :
  title_similarity (Some (normalize_string a)) (Some (normalize_string b))
  = title_similarity a b.
Proof.
  unfold title_similarity. now rewrite !normalize_string_idempotent.
Qed.

Lemma same_normal_form_score (a b : option string) :
  normalize_string a = normalize_string b ->
  normalize_string a <> "" ->
  title_similarity a b = 1%Q.
Proof.
  intros E H. unfold title_similarity. rewrite <- E.
  apply nonempty_true in H as H'. rewrite H'. simpl.
  now apply ratio_identical.
Qed.

(** X4: two titles with the same non-empty normalized form, that is, titles
    that differ in case, punctuation and spacing only, score exactly 1. *)
Theorem title_similarity_same_normal_form (a b : option string) :
  normalize_string a = normalize_string b ->
  normalize_string a <> "" ->
  title_similarity a b = 1%Q.
Proof. apply same_normal_form_score. Qed.

Lemma title_similarity_same_normal_form_witness :
  title_similarity (Some "Drift Detection: a Survey")
                   (Some "drift  detection - A SURVEY!") = 1%Q.
Proof.
  apply title_similarity_same_normal_form;
    [vm_compute; reflexivity | vm_compute; discriminate].
Defined.

End NormalizerProperties.

Section ClassifierProperties.

Lemma string_leb_trans (s1 : string) :
  forall s2 s3,
    String.leb s1 s2 = true -> String.leb s2 s3 = true ->
    String.leb s1 s3 = true.
Proof.
  unfold String.leb.
  induction s1 as [|a s1 IH]; intros [|b s2] [|c s3]; simpl;
    try reflexivity; try discriminate.
  unfold Ascii.compare.
  destruct (N.compare_spec (N_of_ascii a) (N_of_ascii b)) as [E1|L1|G1];
    destruct (N.compare_spec (N_of_ascii b) (N_of_ascii c)) as [E2|L2|G2];
    destruct (N.compare_spec (N_of_ascii a) (N_of_ascii c)) as [E3|L3|G3];
    try reflexivity; try discriminate; try lia; try (intros; discriminate).
  apply IH.
Qed.

Lemma insert_sorted_comm (x y : string) (l : list string) :
  insert_sorted x (insert_sorted y l) = insert_sorted y (insert_sorted x l).
Proof.
  induction l as [|z r IH]; simpl.
  - destruct (String.leb x y) eqn:Exy; destruct (String.leb y x) eqn:Eyx;
      try reflexivity.
    + now rewrite (String.leb_antisym _ _ Exy Eyx).
    + destruct (String.leb_total x y); congruence.
  - destruct (String.leb x z) eqn:Exz; destruct (String.leb y z) eqn:Eyz;
      simpl; rewrite ?Exz, ?Eyz.
    + destruct (String.leb x y) eqn:Exy; destruct (String.leb y x) eqn:Eyx;
        simpl; rewrite ?Exz, ?Eyz; try reflexivity.
      * now rewrite (String.leb_antisym _ _ Exy Eyx).
      * destruct (String.leb_total x y); congruence.
    + destruct (String.leb y x) eqn:Eyx; [|reflexivity].
      rewrite (string_leb_trans _ _ _ Eyx Exz) in Eyz. discriminate.
    + destruct (String.leb x y) eqn:Exy; [|reflexivity].
      rewrite (string_leb_trans _ _ _ Exy Eyz) in Exz. discriminate.
    + now rewrite IH.
Qed.

Lemma sorted_permutation (l l' : list string) :
  Permutation l l' -> sorted l = sorted l'.
Proof.
  unfold sorted. induction 1 as [|x l l' _ IH|x y l|l l' l'' _ IH1 _ IH2];
    simpl.
  - reflexivity.
  - now rewrite IH.
  - apply insert_sorted_comm.
  - now rewrite IH1.
Qed.

Lemma author_names_permutation (l l' : list author) :
  Permutation l l' -> Permutation (author_names l) (author_names l').
Proof.
  induction 1 as [|x l l' _ IH|x y l|l l' l'' _ IH1 _ IH2]; simpl.
  - constructor.
  - destruct (truthy (author_name x)); [now constructor|exact IH].
  - destruct (truthy (author_name x)); destruct (truthy (author_name y));
      try apply Permutation_refl. apply perm_swap.
  - now transitivity (author_names l').
Qed.

Lemma normalize_authors_permutation (l l' : list author) :
  Permutation l l' -> normalize_authors l = normalize_authors l'.
Proof.
  intros H. unfold normalize_authors.
  destruct l as [|a r].
  - apply Permutation_nil in H. now subst.
  - destruct l' as [|a' r'].
    + apply Permutation_sym, Permutation_nil in H. discriminate.
    + now rewrite (sorted_permutation _ _ (author_names_permutation _ _ H)).
Qed.

(** The decision reads a record through three keys only. *)
Lemma are_duplicates_keys (p1 p2 p1' p2' : paper) (thr : Q) :
  doi_key p1 = doi_key p1' -> doi_key p2 = doi_key p2' ->
  truthy (title p1) = truthy (title p1') ->
  truthy (title p2) = truthy (title p2') ->
  normalize_string (title p1) = normalize_string (title p1') ->
  normalize_string (title p2) = normalize_string (title p2') ->
  normalize_authors (authors p1) = normalize_authors (authors p1') ->
  normalize_authors (authors p2) = normalize_authors (authors p2') ->
  are_duplicates p1 p2 thr = are_duplicates p1' p2' thr.
Proof.
  intros D1 D2 T1 T2 N1 N2 A1 A2.
  unfold are_duplicates, title_similarity.
  now rewrite D1, D2, T1, T2, N1, N2, A1, A2.
Qed.

(** X5: the order of the authors of either record does not change the
    decision of the classifier. *)
Theorem are_duplicates_author_order (d1 d2 t1 t2 : option string)
    (a1 a1' a2 a2' : list author) (thr : Q) :
  Permutation a1 a1' -> Permutation a2 a2' ->
  are_duplicates (Paper d1 t1 a1) (Paper d2 t2 a2) thr
  = are_duplicates (Paper d1 t1 a1') (Paper d2 t2 a2') thr.
Proof.
  intros H1 H2. apply are_duplicates_keys; try reflexivity; simpl;
    now apply normalize_authors_permutation.
Qed.

Lemma are_duplicates_author_order_witness :
  are_duplicates
    (Paper None (Some "Cloud Drift") [AuthorName "A. Smith"; AuthorName "B. Lee"])
    (Paper None (Some "Cloud Drift") [AuthorName "C. Wu"]) default_threshold
  = are_duplicates
      (Paper None (Some "Cloud Drift")
         [AuthorName "B. Lee"; AuthorName "A. Smith"])
      (Paper None (Some "Cloud Drift") [AuthorName "C. Wu"])
      default_threshold.
Proof.
  apply are_duplicates_author_order; [apply perm_swap | apply Permutation_refl].
Defined.

(** X6: the decision depends on the titles through their normalized forms
    only: replacing each title by one with the same normalized form (and
    the same emptiness) leaves it unchanged. *)
Theorem are_duplicates_title_form (d1 d2 t1 t1' t2 t2' : option string)
    (a1 a2 : list author) (thr : Q) :
  truthy t1 = truthy t1' -> truthy t2 = truthy t2' ->
  normalize_string t1 = normalize_string t1' ->
  normalize_string t2 = normalize_string t2' ->
  are_duplicates (Paper d1 t1 a1) (Paper d2 t2 a2) thr
  = are_duplicates (Paper d1 t1' a1) (Paper d2 t2' a2) thr.
Proof.
  intros. now apply are_duplicates_keys.
Qed.

Lemma are_duplicates_title_form_witness :
  are_duplicates (Paper None (Some "Cloud Drift!") [])
                 (Paper None (Some "Drift in Clouds") []) default_threshold
  = are_duplicates (Paper None (Some "cloud  drift") [])
                   (Paper None (Some "DRIFT IN CLOUDS.") [])
                   default_threshold.
Proof. apply are_duplicates_title_form; vm_compute; reflexivity. Defined.

Lemma split_nonempty (sep : ascii) (s : string) : split sep s <> [].
Proof.
  destruct s as [|c r]; simpl; [discriminate|].
  destruct (Ascii.eqb c sep); [discriminate|].
  destruct (split sep r); discriminate.
Qed.

Lemma author_set_nonempty (s : string) : author_set s <> [].
Proof.
  unfold author_set. intros E.
  destruct (split "|" s) as [|x l] eqn:Es; [now apply split_nonempty in Es|].
  assert (Hi : In x (nodup string_dec (x :: l))) by (apply nodup_In; now left).
  rewrite E in Hi. exact Hi.
Qed.

Lemma overlap_count_self (l : list string) : overlap_count l l = length l.
Proof.
  unfold overlap_count. f_equal.
  apply forallb_filter_id. apply forallb_forall. intros x Hx.
  now destruct (in_dec string_dec x l).
Qed.

Lemma half_le_true_div (o m : nat) :
  0 < m -> Qle_bool (1 # 2) (true_div o m) = (m <=? 2 * o).
Proof.
  intros Hm. unfold true_div.
  assert (E : Z.pos (Pos.of_nat m) = Z.of_nat m).
  { rewrite <- (positive_nat_Z (Pos.of_nat m)). now rewrite Nat2Pos.id by lia. }
  destruct (Nat.leb_spec m (2 * o)) as [H|H].
  - apply Qle_bool_iff. unfold Qle. cbn [Qnum Qden]. rewrite E. lia.
  - destruct (Qle_bool (1 # 2) (Z.of_nat o # Pos.of_nat m)) eqn:Eq;
      [|reflexivity].
    apply Qle_bool_iff in Eq. unfold Qle in Eq. cbn [Qnum Qden] in Eq.
    rewrite E in Eq. lia.
Qed.

(** X7: for records on which the identifier match does not hold, that both
    have a title whose similarity reaches the threshold and that both have
    an author string, the decision is true exactly when at least half of
    the smaller author set is shared. *)
Theorem are_duplicates_author_overlap (p1 p2 : paper) (thr : Q) :
  identifier_match p1 p2 = false ->
  truthy (title p1) = true -> truthy (title p2) = true ->
  (thr <= title_similarity (title p1) (title p2))%Q ->
  normalize_authors (authors p1) <> "" ->
  normalize_authors (authors p2) <> "" ->
  let set1 := author_set (normalize_authors (authors p1)) in
  let set2 := author_set (normalize_authors (authors p2)) in
  are_duplicates p1 p2 thr
  = (Nat.min (length set1) (length set2) <=? 2 * overlap_count set1 set2).
Proof.
  intros Hid T1 T2 Hthr A1 A2 set1 set2.
  rewrite (are_duplicates_no_identifier _ _ _ Hid), T1, T2. cbn zeta.
  apply Qle_bool_iff in Hthr. rewrite Hthr. cbn [negb orb].
  apply nonempty_true in A1, A2. rewrite A1, A2. cbn [andb].
  fold set1 set2.
  pose proof (author_set_nonempty (normalize_authors (authors p1))) as N1.
  pose proof (author_set_nonempty (normalize_authors (authors p2))) as N2.
  fold set1 in N1. fold set2 in N2.
  destruct set1 as [|x1 r1] eqn:E1; [congruence|].
  destruct set2 as [|x2 r2] eqn:E2; [congruence|].
  rewrite half_le_true_div by (simpl; lia).
  now destruct (_ <=? _).
Qed.

Lemma are_duplicates_author_overlap_witness :
  let p1 := Paper None (Some "Cloud Drift Remediation Survey")
              [AuthorName "A. Smith"; AuthorName "B. Lee"] in
  let p2 := Paper None (Some "Cloud Drift Remediation Survey")
              [AuthorDict (Some "a smith"); AuthorName "C. Wu";
               AuthorName "D. Roy"] in
  let set1 := author_set (normalize_authors (authors p1)) in
  let set2 := author_set (normalize_authors (authors p2)) in
  are_duplicates p1 p2 default_threshold
  = (Nat.min (length set1) (length set2) <=? 2 * overlap_count set1 set2).
Proof.
  apply are_duplicates_author_overlap; try (vm_compute; reflexivity).
  - apply Qle_bool_iff. vm_compute. reflexivity.
  - vm_compute. discriminate.
  - vm_compute. discriminate.
Defined.

Lemma author_set_nodup (s : string) : NoDup (author_set s).
Proof. apply NoDup_nodup. Qed.

Lemma comparable_self_duplicate (p : paper) (thr : Q) :
  comparable p -> (thr <= 1)%Q -> are_duplicates p p thr = true.
Proof.
  intros Hc Hthr.
  destruct (identifier_match p p) eqn:Hid.
  - unfold identifier_match in Hid. unfold are_duplicates. now rewrite Hid.
  - destruct Hc as [Hd|Ht].
    + unfold identifier_match in Hid.
      now rewrite Hd, String.eqb_refl in Hid.
    + assert (Tt : truthy (title p) = true).
      { destruct (title p) as [[|c r]|]; try reflexivity; now elim Ht. }
      assert (Hs : title_similarity (title p) (title p) = 1%Q)
        by now apply same_normal_form_score.
      rewrite (are_duplicates_no_identifier _ _ _ Hid), Tt. cbn zeta.
      rewrite Hs. apply Qle_bool_iff in Hthr. rewrite Hthr. cbn [negb orb].
      destruct (nonempty (normalize_authors (authors p))) eqn:Ea;
        cbn [andb]; [|reflexivity].
      pose proof (author_set_nonempty (normalize_authors (authors p))) as N.
      destruct (author_set (normalize_authors (authors p))) as [|x r] eqn:E;
        [congruence|].
      rewrite half_le_true_div by (simpl; lia).
      rewrite overlap_count_self, Nat.min_id.
      destruct (Nat.leb_spec (length (x :: r)) (2 * length (x :: r)));
        [reflexivity|lia].
Qed.

(** X8: a comparable record, one with an identifier that is not blank or
    with a title that does not normalize to the empty string, is a
    duplicate of itself for every threshold up to 1. *)
Theorem are_duplicates_reflexive (p : paper) (thr : Q) :
  comparable p -> (thr <= 1)%Q -> are_duplicates p p thr = true.
Proof. apply comparable_self_duplicate. Qed.

Lemma are_duplicates_reflexive_witness :
  let p := Paper None (Some "Cloud Drift")
             [AuthorName "A. Smith"; AuthorName "B. Lee"] in
  are_duplicates p p default_threshold = true.
Proof.
  apply are_duplicates_reflexive.
  - right. vm_compute. discriminate.
  - vm_compute. discriminate.
Defined.

End ClassifierProperties.

(* ================================================================== *)
(** * Further properties of the incremental deduplicator *)
(* ================================================================== *)

Section DeduplicatorProperties.

Lemma check_unique_spec (p : paper) (unique_papers : list paper) (c : nat) :
  (fst (check_unique p unique_papers c) = true
   /\ exists u, In u unique_papers
                /\ are_duplicates p u default_threshold = true)
  \/ (check_unique p unique_papers c = (false, c)
      /\ forall u, In u unique_papers ->
                   are_duplicates p u default_threshold = false).
Proof.
  induction unique_papers as [|u r IH]; simpl.
  - right. split; [reflexivity|]. intros u [].
  - destruct (are_duplicates p u default_threshold) eqn:E.
    + left. split; [reflexivity|]. exists u. split; [now left|exact E].
    + destruct IH as [[H1 (x & Hx & Hd)]|[H1 H2]].
      * left. split; [exact H1|]. exists x. split; [now right|exact Hd].
      * right. split; [exact H1|]. intros x [<-|Hx]; [exact E|now apply H2].
Qed.

(** The loop only appends to [unique_papers], in the order of the input. *)
Lemma dedup_loop_appends (all_papers : list paper) :
  forall unique_papers c,
  exists kept,
    fst (dedup_loop all_papers unique_papers c) = unique_papers ++ kept
    /\ subseq kept all_papers.
Proof.
  induction all_papers as [|p r IH]; intros unique_papers c; simpl.
  - exists []. split; [now rewrite app_nil_r|constructor].
  - destruct (check_unique p unique_papers c) as [[] c'].
    + destruct (IH unique_papers c') as (kept & E & Hs).
      exists kept. split; [exact E|now constructor].
    + destruct (IH (unique_papers ++ [p]) c') as (kept & E & Hs).
      exists (p :: kept). split; [now rewrite E, <- app_assoc|].
      now constructor.
Qed.

(** X9: the unique records are a subsequence of the input: records are
    only left out, never reordered, changed or added. *)
Theorem deduplicate_papers_subsequence (all_papers : list paper) :
  subseq (fst (deduplicate_papers all_papers)) all_papers.
Proof.
  unfold deduplicate_papers.
  destruct (dedup_loop_appends all_papers [] 0) as (kept & E & Hs).
  now rewrite E.
Qed.

Lemma dedup_loop_covers (all_papers : list paper) :
  forall unique_papers c p,
    In p (unique_papers ++ all_papers) ->
    In p (fst (dedup_loop all_papers unique_papers c))
    \/ exists u, In u (fst (dedup_loop all_papers unique_papers c))
                 /\ are_duplicates p u default_threshold = true.
Proof.
  induction all_papers as [|x r IH]; intros unique_papers c p Hp; simpl.
  - rewrite app_nil_r in Hp. now left.
  - destruct (check_unique_spec x unique_papers c) as [[H1 (u & Hu & Hd)]|[H1 H2]].
    + destruct (check_unique x unique_papers c) as [b c']. simpl in H1.
      subst b.
      apply in_app_or in Hp as [Hp|[<-|Hp]].
      * apply IH. apply in_or_app. now left.
      * destruct (IH unique_papers c' u) as [Hi|(u' & Hi & Hd')].
        { apply in_or_app. now left. }
        { right. exists u. now split. }
        { right. exists u. split; [|exact Hd].
          destruct (dedup_loop_appends r unique_papers c') as (kept & E & _).
          rewrite E. apply in_or_app. now left. }
      * apply IH. apply in_or_app. now right.
    + rewrite H1. apply IH. rewrite <- app_assoc. simpl.
      apply in_app_or in Hp as [Hp|Hp]; apply in_or_app; [now left|now right].
Qed.

(** X10: every input record is kept, or is classified as a duplicate of a
    record that is kept. *)
Theorem deduplicate_papers_covers (all_papers : list paper) (p : paper) :
  In p all_papers ->
  In p (fst (deduplicate_papers all_papers))
  \/ exists u, In u (fst (deduplicate_papers all_papers))
               /\ are_duplicates p u default_threshold = true.
Proof.
  intros Hp. unfold deduplicate_papers. now apply dedup_loop_covers.
Qed.

Lemma deduplicate_papers_covers_witness :
  let p := Paper (Some "10.1/X") (Some "Drift") [] in
  let l := [Paper (Some "10.1/x") None []; p] in
  In p (fst (deduplicate_papers l))
  \/ exists u, In u (fst (deduplicate_papers l))
               /\ are_duplicates p u default_threshold = true.
Proof.
  apply deduplicate_papers_covers. right. left. reflexivity.
Defined.

Lemma duplicate_free_snoc (l : list paper) (p : paper) :
  duplicate_free l ->
  (forall u, In u l -> are_duplicates p u default_threshold = false) ->
  duplicate_free (l ++ [p]).
Proof.
  intros Hl Hp l1 u l2 x l3 E.
  destruct l3 as [|y l3' _] using rev_ind.
  - replace (l1 ++ u :: l2 ++ [x]) with ((l1 ++ u :: l2) ++ [x]) in E
      by (rewrite <- app_assoc; reflexivity).
    apply app_inj_tail in E as [E1 E2]. subst l x.
    apply Hp. apply in_or_app. right. now left.
  - replace (l1 ++ u :: l2 ++ x :: l3' ++ [y])
      with ((l1 ++ u :: l2 ++ x :: l3') ++ [y]) in E
      by (rewrite <- !app_assoc; simpl; rewrite <- app_assoc; reflexivity).
    apply app_inj_tail in E as [E1 _]. subst l.
    exact (Hl _ _ _ _ _ eq_refl).
Qed.

Lemma dedup_loop_duplicate_free (all_papers : list paper) :
  forall unique_papers c,
    duplicate_free unique_papers ->
    duplicate_free (fst (dedup_loop all_papers unique_papers c)).
Proof.
  induction all_papers as [|x r IH]; intros unique_papers c Hu; simpl.
  - exact Hu.
  - destruct (check_unique_spec x unique_papers c) as [[H1 _]|[H1 H2]].
    + destruct (check_unique x unique_papers c) as [b c']. simpl in H1.
      subst b. now apply IH.
    + rewrite H1. apply IH. now apply duplicate_free_snoc.
Qed.

(** X11: in the unique records, no record is classified as a duplicate of a
    record kept before it. *)
Theorem deduplicate_papers_duplicate_free (all_papers : list paper) :
  duplicate_free (fst (deduplicate_papers all_papers)).
Proof.
  unfold deduplicate_papers. apply dedup_loop_duplicate_free.
  intros [|? ?] ? ? ? ? E; discriminate E.
Qed.

Lemma dedup_loop_keeps_all (all_papers : list paper) :
  forall unique_papers c,
    (forall l1 p l3, all_papers = l1 ++ p :: l3 ->
       forall u, In u (unique_papers ++ l1) ->
                 are_duplicates p u default_threshold = false) ->
    dedup_loop all_papers unique_papers c = (unique_papers ++ all_papers, c).
Proof.
  induction all_papers as [|x r IH]; intros unique_papers c H; simpl.
  - now rewrite app_nil_r.
  - destruct (check_unique_spec x unique_papers c)
      as [[_ (u & Hu & Hd)]|[H1 _]].
    + rewrite (H [] x r eq_refl u) in Hd; [discriminate|].
      now rewrite app_nil_r.
    + rewrite H1, IH.
      * now rewrite <- app_assoc.
      * intros l1 p l3 E u Hu. apply (H (x :: l1) p l3).
        -- now rewrite E.
        -- rewrite <- app_assoc in Hu. exact Hu.
Qed.

Lemma empty_duplicate_free : duplicate_free [].
Proof. intros [|? ?] ? ? ? ? E; discriminate E. Qed.

Lemma duplicate_free_unchanged (all_papers : list paper) :
  duplicate_free all_papers ->
  deduplicate_papers all_papers = (all_papers, 0).
Proof.
  intros H. unfold deduplicate_papers.
  rewrite dedup_loop_keeps_all; [reflexivity|].
  intros l1 p l3 E u Hu. simpl in Hu.
  apply in_split in Hu as (a & b & ->).
  apply (H a u b p l3). now rewrite E, <- app_assoc.
Qed.

(** X12: an input in which no record is classified as a duplicate of an
    earlier one is returned unchanged, in its order, with a count of 0. *)
Theorem deduplicate_papers_no_duplicates (all_papers : list paper) :
  duplicate_free all_papers ->
  deduplicate_papers all_papers = (all_papers, 0).
Proof. apply duplicate_free_unchanged. Qed.

Lemma deduplicate_papers_no_duplicates_witness :
  let l := [Paper (Some "10.1/x") (Some "Cloud Drift") [];
            Paper None (Some "Edge Caching") []] in
  deduplicate_papers l = (l, 0).
Proof.
  apply deduplicate_papers_no_duplicates.
  unfold duplicate_free. intros l1 u l2 p l3 E.
  destruct l1 as [|a l1]; simpl in E; inversion E as [[E1 E2]]; clear E.
  - destruct l2 as [|d l2]; simpl in E2; inversion E2 as [[E3 E4]].
    + vm_compute. reflexivity.
    + destruct l2; discriminate E4.
  - destruct l1 as [|c l1]; simpl in E2; inversion E2 as [[E3 E4]].
    + destruct l2; discriminate E4.
    + destruct l1; discriminate E4.
Defined.

(** X13: deduplicating the unique records again keeps all of them. *)
Theorem deduplicate_papers_idempotent (all_papers : list paper) :
  deduplicate_papers (fst (deduplicate_papers all_papers))
  = (fst (deduplicate_papers all_papers), 0).
Proof.
  apply duplicate_free_unchanged.
  unfold deduplicate_papers. apply dedup_loop_duplicate_free.
  apply empty_duplicate_free.
Qed.

(** X14: a comparable record is never kept twice: exact copies of a record
    with a usable identifier or title are merged. *)
Theorem deduplicate_papers_merges_copies (all_papers : list paper)
    (p : paper) (l1 l2 l3 : list paper) :
  comparable p ->
  fst (deduplicate_papers all_papers) <> l1 ++ p :: l2 ++ p :: l3.
Proof.
  intros Hc E.
  assert (Hf : duplicate_free (fst (deduplicate_papers all_papers))).
  { unfold deduplicate_papers. apply dedup_loop_duplicate_free.
    apply empty_duplicate_free. }
  pose proof (Hf _ _ _ _ _ E) as Hd.
  assert (Hr : are_duplicates p p default_threshold = true).
  { apply comparable_self_duplicate; [exact Hc|].
    unfold default_threshold, Qle. simpl. lia. }
  congruence.
Qed.

Lemma deduplicate_papers_merges_copies_witness :
  fst (deduplicate_papers
         [Paper None (Some "Cloud Drift") [];
          Paper None (Some "Edge Caching") [];
          Paper None (Some "Cloud Drift") []])
  <> [] ++ Paper None (Some "Cloud Drift") []
        :: [Paper None (Some "Edge Caching") []]
        ++ Paper None (Some "Cloud Drift") [] :: [].
Proof.
  apply deduplicate_papers_merges_copies. right. vm_compute. discriminate.
Defined.

End DeduplicatorProperties.

(* ================================================================== *)
(** * The range of the similarity score *)
(* ================================================================== *)

Section ScoreRange.
Variables a b : list ascii.
Variable b2j : list (ascii * list nat).

Lemma j2len_prev_fit (blo : nat) (d : list (nat * nat)) (j : nat) :
  lens_fit blo d -> blo <= j -> j2len_prev d j + 1 <= j + 1 - blo.
Proof.
  intros H Hj. destruct j as [|j]; cbn [j2len_prev]; [lia|].
  destruct (dict_get Nat.eqb j d) eqn:E; [|lia].
  destruct (H _ _ E). lia.
Qed.

Lemma scan_row_within_b (i blo bhi : nat) (d : list (nat * nat))
    (js : list nat) :
  lens_fit blo d ->
  forall nd best,
    lens_fit blo nd -> within_b blo bhi best ->
    lens_fit blo (fst (scan_row i blo bhi d js nd best))
    /\ within_b blo bhi (snd (scan_row i blo bhi d js nd best)).
Proof.
  intros Hd. induction js as [|j r IH]; intros nd best Hnd Hb; simpl.
  - now split.
  - destruct (Nat.ltb_spec j blo); [now apply IH|].
    destruct (Nat.leb_spec bhi j); [now split|].
    pose proof (j2len_prev_fit blo d j Hd) as Hk.
    apply IH.
    + intros j0 v. rewrite (dict_get_set _ Nat.eqb_spec).
      destruct (Nat.eqb_spec j0 j) as [->|N]; [|apply Hnd].
      intros E. inversion E. lia.
    + destruct (snd best <? j2len_prev d j + 1); [|exact Hb].
      unfold within_b. simpl. lia.
Qed.

Lemma scan_rows_within_b (blo bhi m : nat) :
  forall i d best,
    lens_fit blo d -> within_b blo bhi best ->
    within_b blo bhi (scan_rows a b2j m i blo bhi d best).
Proof.
  induction m as [|m IH]; intros i d best Hd Hb; simpl; [exact Hb|].
  assert (Hnil : lens_fit blo []) by (intros j v; discriminate).
  destruct (scan_row_within_b i blo bhi d (b2j_get b2j (nth i a zero))
              Hd [] best Hnil Hb) as [H1 H2].
  destruct (scan_row i blo bhi d (b2j_get b2j (nth i a zero)) [] best)
    as [nd best1].
  now apply IH.
Qed.

Lemma extend_left_within_b (alo blo hi : nat) :
  forall besti bestj size,
    within_b blo hi (besti, bestj, size) ->
    within_b blo hi (extend_left a b alo blo besti bestj size).
Proof.
  induction besti as [|i IH]; intros bestj size H; simpl; [exact H|].
  destruct (alo <? S i); simpl; [|exact H].
  destruct (Nat.ltb_spec blo bestj); simpl; [|exact H].
  destruct (Ascii.eqb _ _); [|exact H].
  apply IH. destruct H as [H1 H2]. simpl in *. split; simpl; lia.
Qed.

Lemma extend_right_within_b (ahi bhi besti bestj m : nat) :
  forall size,
    bestj + size <= bhi ->
    bestj + extend_right a b m ahi bhi besti bestj size <= bhi.
Proof.
  induction m as [|m IH]; intros size H; simpl; [exact H|].
  destruct (besti + size <? ahi); simpl; [|exact H].
  destruct (Nat.ltb_spec (bestj + size) bhi); simpl; [|exact H].
  destruct (Ascii.eqb _ _); [|exact H].
  apply IH. lia.
Qed.

Lemma find_longest_match_within_b (alo ahi blo bhi : nat) :
  blo <= bhi ->
  within_b blo bhi (find_longest_match a b b2j alo ahi blo bhi).
Proof.
  intros H. unfold find_longest_match.
  assert (H0 : within_b blo bhi
                 (scan_rows a b2j (ahi - alo) alo blo bhi []
                    (alo, blo, 0))).
  { apply scan_rows_within_b.
    - intros j v. discriminate.
    - split; simpl; lia. }
  destruct (scan_rows a b2j (ahi - alo) alo blo bhi [] (alo, blo, 0))
    as [[bi bj] size].
  pose proof (extend_left_within_b alo blo bhi bi bj size H0) as H1.
  destruct (extend_left a b alo blo bi bj size) as [[bi' bj'] size'].
  destruct H1 as [H1 H2]. simpl in H1, H2.
  split; simpl; [exact H1|].
  now apply extend_right_within_b.
Qed.

Lemma queue_span_a_cons (alo ahi blo bhi : nat)
    (queue : list (nat * nat * nat * nat)) :
  queue_span_a ((alo, ahi, blo, bhi) :: queue)
  = (ahi - alo) + queue_span_a queue.
Proof. reflexivity. Qed.

Lemma queue_span_b_cons (alo ahi blo bhi : nat)
    (queue : list (nat * nat * nat * nat)) :
  queue_span_b ((alo, ahi, blo, bhi) :: queue)
  = (bhi - blo) + queue_span_b queue.
Proof. reflexivity. Qed.

Lemma sizes_snoc (blocks : list Match) (i j k : nat) :
  sizes (blocks ++ [(i, j, k)]) = sizes blocks + k.
Proof.
  unfold sizes. rewrite map_app, list_sum_app. simpl. lia.
Qed.

(** The blocks found fit in what the queue still covers, in [a] and in
    [b]. *)
Lemma blocks_loop_sizes (fuel : nat) :
  forall queue blocks,
    queue_ok queue -> queue_ok_b queue ->
    sizes (blocks_loop a b b2j fuel queue blocks)
    <= sizes blocks + queue_span_a queue
    /\ sizes (blocks_loop a b b2j fuel queue blocks)
       <= sizes blocks + queue_span_b queue.
Proof.
  induction fuel as [|fuel IH]; intros queue blocks Ha Hb; [simpl; lia|].
  destruct queue as [|[[[alo ahi] blo] bhi] qu]; [simpl; lia|].
  inversion Ha as [|? ? Hla Hqa]; subst.
  inversion Hb as [|? ? Hlb Hqb]; subst. simpl in Hla, Hlb.
  rewrite queue_span_a_cons, queue_span_b_cons.
  cbn [blocks_loop].
  pose proof (find_longest_match_within a b b2j alo ahi blo bhi Hla) as Wa.
  pose proof (find_longest_match_within_b alo ahi blo bhi Hlb) as Wb.
  destruct (find_longest_match a b b2j alo ahi blo bhi) as [[i j] k].
  destruct Wa as [Wa1 Wa2]. destruct Wb as [Wb1 Wb2].
  simpl in Wa1, Wa2, Wb1, Wb2.
  destruct (Nat.eqb_spec k 0) as [->|Hk].
  - destruct (IH qu blocks Hqa Hqb). lia.
  - destruct (Nat.ltb_spec alo i) as [A1|A1];
      destruct (Nat.ltb_spec blo j) as [B1|B1]; cbn [andb];
      destruct (Nat.ltb_spec (i + k) ahi) as [A2|A2];
      destruct (Nat.ltb_spec (j + k) bhi) as [B2|B2]; cbn [andb];
      match goal with
      | |- context [blocks_loop a b b2j fuel ?q ?bl] =>
          assert (Ha' : queue_ok q)
            by (repeat (constructor; [simpl; lia|]); exact Hqa);
          assert (Hb' : queue_ok_b q)
            by (repeat (constructor; [simpl; lia|]); exact Hqb);
          destruct (IH q bl Ha' Hb') as [I1 I2];
          rewrite sizes_snoc in I1, I2;
          rewrite ?queue_span_a_cons in I1;
          rewrite ?queue_span_b_cons in I2; lia
      end.
Qed.

End ScoreRange.

Section ScoreRangeResult.

Lemma sizes_insert_match (x : Match) (l : list Match) :
  sizes (insert_match x l) = size_of x + sizes l.
Proof.
  induction l as [|y r IH]; simpl; [reflexivity|].
  destruct (match_leb x y); [reflexivity|].
  unfold sizes in *. simpl. rewrite IH. lia.
Qed.

Lemma sizes_sort_matches (l : list Match) : sizes (sort_matches l) = sizes l.
Proof.
  induction l as [|x r IH]; simpl; [reflexivity|].
  rewrite sizes_insert_match. unfold sizes in *. simpl. now rewrite IH.
Qed.

Lemma sizes_collapse (l : list Match) :
  forall i1 j1 k1, sizes (collapse i1 j1 k1 l) = k1 + sizes l.
Proof.
  induction l as [|[[i2 j2] k2] r IH]; intros i1 j1 k1; simpl.
  - destruct (Nat.eqb_spec k1 0); unfold sizes; simpl; unfold size_of;
      simpl; lia.
  - destruct ((i1 + k1 =? i2) && (j1 + k1 =? j2)).
    + rewrite IH. unfold sizes, size_of. simpl. lia.
    + unfold sizes in *. rewrite map_app, list_sum_app.
      rewrite IH. unfold size_of.
      destruct (Nat.eqb_spec k1 0); simpl; lia.
Qed.

(** The matched elements are no more than either sequence has. *)
Lemma matching_blocks_sizes (a b : list ascii) :
  sizes (get_matching_blocks a b) <= length a
  /\ sizes (get_matching_blocks a b) <= length b.
Proof.
  unfold get_matching_blocks.
  assert (E : forall l, sizes (collapse 0 0 0 (sort_matches l)
                               ++ [(length a, length b, 0)])
                        = sizes l).
  { intros l. unfold sizes at 1. rewrite map_app, list_sum_app.
    fold (sizes (collapse 0 0 0 (sort_matches l))).
    rewrite sizes_collapse, sizes_sort_matches. simpl. unfold size_of.
    simpl. lia. }
  rewrite E.
  destruct (blocks_loop_sizes a b (chain_b b) (blocks_fuel a)
              [(0, length a, 0, length b)] []) as [H1 H2].
  - repeat constructor. simpl. lia.
  - repeat constructor. simpl. lia.
  - rewrite queue_span_a_cons in H1. rewrite queue_span_b_cons in H2.
    change (queue_span_a []) with 0 in H1.
    change (queue_span_b []) with 0 in H2.
    change (sizes []) with 0 in H1, H2. lia.
Qed.

Lemma calculate_ratio_range (m t : nat) :
  2 * m <= t ->
  (0 <= calculate_ratio m t)%Q /\ (calculate_ratio m t <= 1)%Q.
Proof.
  intros H. unfold calculate_ratio.
  destruct (Nat.eqb_spec t 0) as [->|Ht].
  - split; unfold Qle; simpl; lia.
  - assert (E : Z.pos (Pos.of_nat t) = Z.of_nat t).
    { rewrite <- (positive_nat_Z (Pos.of_nat t)).
      now rewrite Nat2Pos.id by lia. }
    split; rewrite Qred_correct; unfold Qle; cbn [Qnum Qden];
      rewrite ?E; lia.
Qed.

(** X15: the similarity score lies between 0 and 1. *)
Theorem title_similarity_range (title1 title2 : option string) :
  (0 <= title_similarity title1 title2)%Q
  /\ (title_similarity title1 title2 <= 1)%Q.
Proof.
  unfold title_similarity.
  destruct (negb (nonempty (normalize_string title1))
            || negb (nonempty (normalize_string title2))).
  - split; unfold Qle; simpl; lia.
  - unfold ratio. apply calculate_ratio_range.
    destruct (matching_blocks_sizes
                (list_ascii_of_string (normalize_string title1))
                (list_ascii_of_string (normalize_string title2)))
      as [H1 H2].
    unfold sizes in H1, H2. lia.
Qed.

End ScoreRangeResult.

(* ================================================================== *)
(** * The papertable files *)
(* ================================================================== *)

Section PapertableProperties.

Lemma papers_name_matches (x : string) :
  contains "paper" (lower ("Papers (" ++ x)%string) = true.
Proof. vm_compute. reflexivity. Qed.

Lemma collect_saved_rows (papers : list json) :
  forall acc,
    collect_papers (JStr "papers_deduplicated")
      (map (fun paper => JDict [("papers_deduplicated", paper)]) papers) acc
    = Returns (acc ++ filter is_dict papers).
Proof.
  induction papers as [|p r IH]; intros acc.
  - simpl. now rewrite app_nil_r.
  - cbn [map collect_papers key_in filter].
    change (has_key "papers_deduplicated" [("papers_deduplicated", p)])
      with true.
    change (get "papers_deduplicated" [("papers_deduplicated", p)] JNull)
      with p.
    cbv iota beta. destruct (is_dict p).
    + rewrite IH, <- app_assoc. reflexivity.
    + apply IH.
Qed.

Lemma filter_all (A : Type) (f : A -> bool) (l : list A) :
  forallb f l = true -> filter f l = l.
Proof.
  induction l as [|x r IH]; simpl; [reflexivity|].
  intros H. apply andb_true_iff in H as [Hx Hr]. now rewrite Hx, IH.
Qed.

Lemma load_saved (papers : list json) :
  load_papertable (Some (save_papertable papers)) = filter is_dict papers.
Proof.
  unfold load_papertable, save_papertable, load_body.
  change (has_key "data" ?d && has_key "columns" ?d) with true.
  cbv iota.
  unfold find_papers_column.
  cbn [get dict_get String.eqb Ascii.eqb Bool.eqb andb iterate
       find_in_columns].
  rewrite papers_name_matches.
  cbn [is_true nonempty negb].
  now rewrite collect_saved_rows.
Qed.

Lemma forallb_is_dict_map (ds : list (list (string * json))) :
  forallb is_dict (map JDict ds) = true.
Proof. induction ds as [|d r IH]; simpl; [reflexivity|exact IH]. Qed.

(** X16: what [save_papertable] writes, [load_papertable] reads back: a
    list of records (dicts) comes back unchanged, in its order; of any
    other list, the entries that are dicts come back. *)
Theorem load_save_papertable :
  (forall ds : list (list (string * json)),
     load_papertable (Some (save_papertable (map JDict ds))) = map JDict ds)
  /\ (forall papers : list json,
        load_papertable (Some (save_papertable papers))
        = filter is_dict papers).
Proof.
  split; [|apply load_saved].
  intros ds. rewrite load_saved. apply filter_all, forallb_is_dict_map.
Qed.

Lemma collect_papers_dicts (papers_col_id : json) (rows : list json) :
  forall acc papers,
    Forall (fun v => is_dict v = true) acc ->
    collect_papers papers_col_id rows acc = Returns papers ->
    Forall (fun v => is_dict v = true) papers.
Proof.
  induction rows as [|row rest IH]; intros acc papers Hacc E; simpl in E.
  - inversion E. now subst.
  - destruct row as [| | | | |r]; try (now apply (IH acc)).
    destruct (key_in papers_col_id r) as [[]|]; [| |discriminate].
    + set (get_paper := match papers_col_id with
                          | JStr s => get s r JNull
                          | _ => JNull
                          end) in *.
      destruct (is_dict get_paper) eqn:Ed; [|now apply (IH acc)].
      apply (IH (acc ++ [get_paper]) papers); [|exact E].
      apply Forall_app. split; [exact Hacc|]. now constructor.
    + now apply (IH acc).
Qed.

(** X17: every record that [load_papertable] returns is a dict, whatever
    the file holds. *)
Theorem load_papertable_dicts (file : option json) :
  Forall (fun v => is_dict v = true) (load_papertable file).
Proof.
  destruct file as [data|]; [|constructor].
  unfold load_papertable.
  destruct (load_body data) as [papers|e] eqn:E; [|constructor].
  unfold load_body in E.
  destruct data as [| | | | |d]; try (inversion E; constructor).
  destruct (has_key "data" d && has_key "columns" d);
    [|inversion E; constructor].
  destruct (find_papers_column _) as [pid|]; [|discriminate].
  destruct (negb (is_true pid)); [inversion E; constructor|].
  destruct (iterate _) as [rows|]; [|discriminate].
  apply (collect_papers_dicts _ _ [] _ (Forall_nil _) E).
Qed.

Lemma find_in_columns_passed_over (cols : list json) :
  forallb passed_over cols = true -> find_in_columns cols = Returns JNull.
Proof.
  induction cols as [|col rest IH]; simpl; [reflexivity|].
  intros H. apply andb_true_iff in H as [Hc Hr].
  destruct col as [| | | | |c]; try (now apply IH).
  unfold passed_over in Hc.
  destruct (get "name" c (JStr "")) as [| | |name| |]; try discriminate.
  apply negb_true_iff in Hc. rewrite Hc. now apply IH.
Qed.

(** X18: a table in which no column is a dict with "paper" in its name
    yields no record, whatever its rows hold. *)
Theorem load_papertable_no_papers_column (d : list (string * json))
    (cols : list json) :
  get "columns" d JNull = JList cols ->
  forallb passed_over cols = true ->
  load_papertable (Some (JDict d)) = [].
Proof.
  intros Hc Hp. unfold load_papertable, load_body.
  destruct (has_key "data" d && has_key "columns" d); [|reflexivity].
  rewrite Hc. unfold find_papers_column. cbn [iterate].
  now rewrite (find_in_columns_passed_over _ Hp).
Qed.

Lemma load_papertable_no_papers_column_witness :
  load_papertable
    (Some (JDict [("columns",
                   JList [JDict [("name", JStr "Authors");
                                 ("column_id", JStr "c1")]; JNum 3]);
                  ("data", JList [JDict [("c1", JDict [])]])]))
  = [].
Proof.
  apply (load_papertable_no_papers_column _
           [JDict [("name", JStr "Authors"); ("column_id", JStr "c1")];
            JNum 3]); reflexivity.
Defined.

End PapertableProperties.

(* ================================================================== *)
(** * Further properties of the website builder *)
(* ================================================================== *)

Section PdfMapProperties.

Lemma load_pdf_loop_app (l1 l2 : list string) :
  forall m, load_pdf_loop (l1 ++ l2) m = load_pdf_loop l2 (load_pdf_loop l1 m).
Proof.
  induction l1 as [|f r IH]; intros m; simpl; [reflexivity|].
  destruct (endswith ".pdf" (lower f)); [|apply IH].
  destruct (leading_number f); apply IH.
Qed.

Lemma load_pdf_loop_entries (all listing : list string) :
  forall m,
    incl listing all ->
    (forall n f, dict_get Nat.eqb n m = Some f -> In f all /\ pdf_name n f) ->
    forall n f, dict_get Nat.eqb n (load_pdf_loop listing m) = Some f ->
                In f all /\ pdf_name n f.
Proof.
  induction listing as [|g r IH]; intros m Hin Hm; simpl; [exact Hm|].
  assert (Hr : incl r all) by (intros x Hx; apply Hin; now right).
  destruct (endswith ".pdf" (lower g)) eqn:Ee; [|now apply IH].
  destruct (leading_number g) as [k|] eqn:El; [|now apply IH].
  apply IH; [exact Hr|].
  intros n f. rewrite (dict_get_set _ Nat.eqb_spec).
  destruct (Nat.eqb_spec n k) as [->|N]; [|apply Hm].
  intros E. inversion E. subst f. split; [apply Hin; now left|].
  now split.
Qed.

(** X19: a file name found in the PDF map under a number is a name of the
    listing that ends in ".pdf", in any case, and starts with the digits of
    that number and a hyphen. *)
Theorem load_pdf_map_lookup (listing : list string) (n : nat) (f : string) :
  dict_get Nat.eqb n (load_pdf_map listing) = Some f ->
  In f listing /\ pdf_name n f.
Proof.
  unfold load_pdf_map.
  apply (load_pdf_loop_entries listing listing []).
  - apply incl_refl.
  - intros k g E. discriminate E.
Qed.

Lemma load_pdf_map_lookup_witness :
  In "12-Drift.PDF" ["notes.txt"; "12-Drift.PDF"; "x.pdf"]
  /\ pdf_name 12 "12-Drift.PDF".
Proof.
  apply load_pdf_map_lookup. vm_compute. reflexivity.
Defined.

Lemma load_pdf_loop_other (n : nat) (listing : list string) :
  forall m,
    (forall g, In g listing -> ~ pdf_name n g) ->
    dict_get Nat.eqb n (load_pdf_loop listing m) = dict_get Nat.eqb n m.
Proof.
  induction listing as [|g r IH]; intros m H; simpl; [reflexivity|].
  assert (Hr : forall x, In x r -> ~ pdf_name n x)
    by (intros x Hx; apply H; now right).
  destruct (endswith ".pdf" (lower g)) eqn:Ee; [|now apply IH].
  destruct (leading_number g) as [k|] eqn:El; [|now apply IH].
  rewrite (IH _ Hr), (dict_get_set _ Nat.eqb_spec).
  destruct (Nat.eqb_spec n k) as [->|N]; [|reflexivity].
  elim (H g); [now left|now split].
Qed.

(** X20: of the files of the listing that carry one number, the PDF map
    holds the last one. *)
Theorem load_pdf_map_last_wins (l1 l2 : list string) (n : nat) (f : string) :
  pdf_name n f ->
  (forall g, In g l2 -> ~ pdf_name n g) ->
  dict_get Nat.eqb n (load_pdf_map (l1 ++ f :: l2)) = Some f.
Proof.
  intros [He Hl] H2. unfold load_pdf_map.
  rewrite load_pdf_loop_app. simpl. rewrite He, Hl.
  rewrite (load_pdf_loop_other n l2 _ H2), (dict_get_set _ Nat.eqb_spec).
  now rewrite Nat.eqb_refl.
Qed.

Lemma load_pdf_map_last_wins_witness :
  dict_get Nat.eqb 3
    (load_pdf_map (["3-draft.pdf"; "7-other.pdf"]
                   ++ "3-final.pdf" :: ["readme.md"; "30-x.pdf"]))
  = Some "3-final.pdf".
Proof.
  apply load_pdf_map_last_wins.
  - split; vm_compute; reflexivity.
  - intros g [<-|[<-|[]]] [H1 H2]; vm_compute in H1, H2; discriminate.
Defined.

End PdfMapProperties.

Section TitleExtraction.

Lemma span_until_code_spec (c : N) (s : text) :
  s = fst (span_until_code c s) ++ snd (span_until_code c s)
  /\ ~ In c (fst (span_until_code c s))
  /\ (snd (span_until_code c s) <> [] ->
      exists post, snd (span_until_code c s) = c :: post).
Proof.
  induction s as [|x r IH]; cbn [span_until_code].
  - repeat split; [intros []|intros H; now elim H].
  - destruct (N.eqb_spec x c) as [->|Nx]; cbn [fst snd].
    + repeat split; [intros []|intros _; now exists r].
    + destruct (span_until_code c r) as [run rest]. cbn [fst snd] in *.
      destruct IH as (E & Hc & Hp). repeat split.
      * simpl. now rewrite <- E.
      * intros [Hx|Hi]; [now apply Nx|now apply Hc].
      * exact Hp.
Qed.

Lemma search_delimited_spec (o c : N) (s t : text) :
  search_delimited o c s = Some t ->
  t <> [] /\ ~ In c t
  /\ exists pre post, s = pre ++ o :: t ++ c :: post.
Proof.
  induction s as [|x r IH]; cbn [search_delimited]; [discriminate|].
  assert (Hrec : search_delimited o c r = Some t ->
                 t <> [] /\ ~ In c t
                 /\ exists pre post, x :: r = pre ++ o :: t ++ c :: post).
  { intros H. destruct (IH H) as (H1 & H2 & pre & post & E).
    repeat split; [exact H1|exact H2|].
    exists (x :: pre), post. simpl. now rewrite E. }
  destruct (N.eqb_spec x o) as [->|Nx]; [|exact Hrec].
  destruct (span_until_code_spec c r) as (E & Hc & Hp).
  destruct (span_until_code c r) as [run rest]. cbn [fst snd] in E, Hc, Hp.
  destruct run as [|y run']; [exact Hrec|].
  destruct rest as [|z rest']; [exact Hrec|].
  intros H. inversion H. subst t.
  destruct Hp as (post & Ez); [discriminate|]. inversion Ez. subst z post.
  repeat split; [discriminate|exact Hc|].
  exists [], rest'. simpl. now rewrite E.
Qed.

Lemma count_code_app (c : N) (s1 s2 : text) :
  count_code c (s1 ++ s2) = count_code c s1 + count_code c s2.
Proof. unfold count_code. now rewrite filter_app, length_app. Qed.

Lemma count_code_cons (c : N) (s : text) :
  count_code c (c :: s) = S (count_code c s).
Proof. unfold count_code. simpl. now rewrite N.eqb_refl. Qed.

Lemma search_delimited_counts (o c : N) (s t : text) :
  search_delimited o c s = Some t ->
  1 <= count_code o s /\ 1 <= count_code c s
  /\ (o = c -> 2 <= count_code c s).
Proof.
  intros H.
  destruct (search_delimited_spec _ _ _ _ H) as (_ & _ & pre & post & ->).
  repeat split.
  - rewrite count_code_app, count_code_cons. lia.
  - rewrite count_code_app.
    replace (o :: t ++ c :: post) with ((o :: t) ++ c :: post) by reflexivity.
    rewrite count_code_app, count_code_cons. lia.
  - intros ->. rewrite count_code_app, count_code_cons, count_code_app,
      count_code_cons. lia.
Qed.

(** X22: a title extracted from a reference text is not empty and stands
    in the text between a left and a right curly quote, without a right
    curly quote inside, or, when the search for curly quotes finds
    nothing, between two straight double quotes, without a straight
    double quote inside. *)
Theorem title_match_text_quoted (ref_text t : text) :
  title_match_text ref_text = Some t ->
  t <> []
  /\ ((~ In rdquo t
       /\ exists pre post, ref_text = pre ++ ldquo :: t ++ rdquo :: post)
      \/ (search_delimited ldquo rdquo ref_text = None
          /\ ~ In dquote_code t
          /\ exists pre post,
               ref_text = pre ++ dquote_code :: t ++ dquote_code :: post)).
Proof.
  unfold title_match_text.
  destruct (search_delimited ldquo rdquo ref_text) as [u|] eqn:E.
  - intros H. inversion H. subst u.
    destruct (search_delimited_spec _ _ _ _ E) as (H1 & H2 & H3).
    split; [exact H1|]. left. now split.
  - intros H. destruct (search_delimited_spec _ _ _ _ H) as (H1 & H2 & H3).
    split; [exact H1|]. right. now repeat split.
Qed.

Lemma title_match_text_quoted_witness :
  let t := codes "Drift Detection" in
  let ref_text := codes "A. Author, " ++ ldquo :: t ++ rdquo :: codes " 2021." in
  t <> []
  /\ ((~ In rdquo t
       /\ exists pre post, ref_text = pre ++ ldquo :: t ++ rdquo :: post)
      \/ (search_delimited ldquo rdquo ref_text = None
          /\ ~ In dquote_code t
          /\ exists pre post,
               ref_text = pre ++ dquote_code :: t ++ dquote_code :: post)).
Proof. apply title_match_text_quoted. vm_compute. reflexivity. Defined.

(** X23: a reference text that lacks a left or a right curly quote and
    has fewer than two straight double quotes has no title; the body of
    the loop then leaves the reference without a target, whatever the
    pools hold. *)
Theorem title_match_text_unquoted (ref_text : text) :
  count_code ldquo ref_text = 0 \/ count_code rdquo ref_text = 0 ->
  count_code dquote_code ref_text < 2 ->
  title_match_text ref_text = None
  /\ forall included_papers csv_papers m,
       resolve_title None included_papers csv_papers m = Ok None.
Proof.
  intros Hc Hq. split; [|reflexivity].
  unfold title_match_text.
  destruct (search_delimited ldquo rdquo ref_text) as [u|] eqn:E.
  - destruct (search_delimited_counts _ _ _ _ E) as (H1 & H2 & _). lia.
  - destruct (search_delimited dquote_code dquote_code ref_text) as [u|] eqn:E';
      [|reflexivity].
    destruct (search_delimited_counts _ _ _ _ E') as (_ & _ & H3).
    specialize (H3 eq_refl). lia.
Qed.

Lemma title_match_text_unquoted_witness :
  let ref_text := codes "A. Author, " ++ ldquo :: codes "Drift Detection, 2021." in
  title_match_text ref_text = None
  /\ forall included_papers csv_papers m,
       resolve_title None included_papers csv_papers m = Ok None.
Proof.
  apply title_match_text_unquoted; [right; reflexivity|vm_compute; lia].
Defined.

(** ** The title search on a [string] *)

Lemma N_of_ascii_code (a b : ascii) :
  N.eqb (N_of_ascii a) (N_of_ascii b) = Ascii.eqb a b.
Proof.
  destruct (Ascii.eqb_spec a b) as [->|Nab]; [apply N.eqb_refl|].
  apply N.eqb_neq. intros E. apply Nab.
  rewrite <- (ascii_N_embedding a), <- (ascii_N_embedding b). now rewrite E.
Qed.

Lemma codes_cons (c : ascii) (s : string) :
  codes (String c s) = N_of_ascii c :: codes s.
Proof. reflexivity. Qed.

Lemma span_until_codes (qc : ascii) (s : string) :
  span_until_code (N_of_ascii qc) (codes s)
  = (codes (fst (span_until qc s)), codes (snd (span_until qc s))).
Proof.
  induction s as [|c r IH]; [reflexivity|].
  rewrite codes_cons. cbn [span_until_code span_until].
  rewrite N_of_ascii_code. destruct (Ascii.eqb c qc); [reflexivity|].
  rewrite IH. now destruct (span_until qc r).
Qed.

Lemma search_quoted_codes (qc : ascii) (s : string) :
  search_delimited (N_of_ascii qc) (N_of_ascii qc) (codes s)
  = option_map codes (search_quoted qc s).
Proof.
  induction s as [|c r IH]; [reflexivity|].
  rewrite codes_cons. cbn [search_delimited search_quoted].
  rewrite N_of_ascii_code. destruct (Ascii.eqb c qc); [|exact IH].
  rewrite span_until_codes. destruct (span_until qc r) as [run rest].
  cbn [fst snd].
  destruct run as [|y run']; [exact IH|].
  destruct rest as [|z rest']; [exact IH|reflexivity].
Qed.

Lemma search_curly_codes (s : string) :
  search_delimited ldquo rdquo (codes s) = None.
Proof.
  induction s as [|c r IH]; [reflexivity|].
  rewrite codes_cons. cbn [search_delimited].
  destruct (N.eqb_spec (N_of_ascii c) ldquo) as [E|_]; [|exact IH].
  pose proof (N_ascii_bounded c) as B. rewrite E in B. discriminate B.
Qed.

(** On a text of code points below 256 the two searches of the source
    give the title that [title_match] gives. *)
Lemma title_match_codes (ref_text : string) :
  title_match_text (codes ref_text) = option_map codes (title_match ref_text).
Proof.
  unfold title_match_text, title_match.
  rewrite search_curly_codes. apply (search_quoted_codes dquote).
Qed.

End TitleExtraction.

Section ResolverProperties.

Lemma dict_get_value (m : pdf_map) (n : nat) (f : string) :
  dict_get Nat.eqb n m = Some f -> In f (map snd m).
Proof.
  induction m as [|[k v] r IH]; simpl; [discriminate|].
  destruct (n =? k); [|auto].
  intros E. inversion E. now left.
Qed.

Lemma scan_included_value (t : string) (m : pdf_map)
    (included_papers : list row) (f : string) :
  scan_included t m included_papers = Ok (Some f) -> In f (map snd m).
Proof.
  induction included_papers as [|r rest IH]; [discriminate|].
  rewrite scan_included_row. unfold included_row.
  destruct (included_test t r); [|exact IH].
  destruct (nonempty _ && isdigit _); [|exact IH].
  destruct (int _) as [n|]; [|discriminate].
  destruct (dict_get Nat.eqb n m) as [g|] eqn:E; [|exact IH].
  intros H. inversion H. subst g. exact (dict_get_value _ _ _ E).
Qed.

Lemma best_loop_value (tokens : list string) (items : pdf_map) :
  forall best target f,
    best_loop tokens items best target = Some f ->
    target = Some f \/ In f (map snd items).
Proof.
  induction items as [|[p g] r IH]; intros best target f.
  - simpl. now left.
  - cbn [best_loop map snd].
    destruct ((best <? score tokens g) && (2 <=? score tokens g)).
    + intros H. destruct (IH _ _ _ H) as [E|Hi].
      * inversion E. right. now left.
      * right. now right.
    + intros H. destruct (IH _ _ _ H) as [E|Hi]; [now left|right; now right].
Qed.

Lemma resolve_title_value (title : option string)
    (included_papers csv_papers : list row) (m : pdf_map) (f : string) :
  resolve_title title included_papers csv_papers m = Ok (Some f) ->
  In f (map snd m).
Proof.
  unfold resolve_title, structural.
  destruct title as [t|]; [|discriminate].
  destruct (scan_included t m included_papers) as [target|e] eqn:E;
    [|discriminate].
  rewrite scan_csv_id.
  assert (Ht : forall g, target = Some g -> In g (map snd m)).
  { intros g ->. exact (scan_included_value _ _ _ _ E). }
  destruct (negb (truthy target)) eqn:Et; unfold fallback; rewrite Et.
  - intros H. inversion H as [H'].
    destruct (best_loop_value _ _ _ _ _ H') as [E'|Hi]; [now apply Ht|exact Hi].
  - intros H. inversion H. now apply Ht.
Qed.

(** X24: a reference is only ever resolved to a file name of the PDF
    map. *)
Theorem resolve_reference_in_pdf_map (ref_text : string)
    (included_papers csv_papers : list row) (m : pdf_map) (f : string) :
  resolve_reference ref_text included_papers csv_papers m = Ok (Some f) ->
  In f (map snd m).
Proof. apply resolve_title_value. Qed.

Lemma resolve_reference_in_pdf_map_witness :
  In "2-Drift_Remediation.pdf"
     (map snd [(1, "1-cloud-costs.pdf"); (2, "2-Drift_Remediation.pdf")]).
Proof.
  apply (resolve_reference_in_pdf_map
           ("[5] B. Lee, " ++ String dquote "Cloud Drift Remediation Survey"
            ++ String dquote ", 2022.")%string [] []).
  vm_compute. reflexivity.
Defined.

Lemma score_le_tokens (tokens : list string) (f : string) :
  score tokens f <= length tokens.
Proof. unfold score. apply filter_length_le. Qed.

Lemma max_score_le_tokens (tokens : list string) (m : pdf_map) :
  max_score tokens m <= length tokens.
Proof.
  induction m as [|[p f] r IH]; simpl; [lia|].
  fold (max_score tokens r). pose proof (score_le_tokens tokens f). lia.
Qed.

(** X25: a title with fewer than two words longer than 4 characters is
    never resolved by the search of the file names: when the scan of the
    higher-priority pool finds nothing, the reference is unresolved. *)
Theorem short_title_unresolved (ref_text t : string)
    (included_papers csv_papers : list row) (m : pdf_map) :
  title_match ref_text = Some t ->
  length (title_tokens t) < 2 ->
  scan_included t m included_papers = Ok None ->
  resolve_reference ref_text included_papers csv_papers m = Ok None.
Proof.
  intros Ht Hl Hs.
  unfold resolve_reference, resolve_title, structural. rewrite Ht, Hs.
  cbn [truthy negb]. rewrite scan_csv_id. unfold fallback.
  cbn [truthy negb]. rewrite best_loop_max.
  pose proof (max_score_le_tokens (title_tokens t) m).
  destruct (Nat.leb_spec 2 (max_score (title_tokens t) m)); [lia|].
  now rewrite andb_false_r.
Qed.

Lemma short_title_unresolved_witness :
  resolve_reference
    ("[2] C. Wu, " ++ String dquote "On the Drift of IaC"
     ++ String dquote ", 2020.")%string
    [] [] [(4, "4-on-the-drift-of-iac.pdf")]
  = Ok None.
Proof.
  apply (short_title_unresolved _ "On the Drift of IaC");
    vm_compute; try reflexivity; lia.
Defined.

Lemma dict_set_in_string (k v : string) (d : list (string * string)) :
  forall k' v', In (k', v') (dict_set String.eqb k v d) ->
                (k' = k /\ v' = v) \/ In (k', v') d.
Proof.
  induction d as [|[k0 v0] r IH]; intros k' v' H; simpl in H.
  - destruct H as [E|[]]. inversion E. now left.
  - destruct (String.eqb k k0).
    + destruct H as [E|H]; [inversion E; now left|right; now right].
    + destruct H as [E|H]; [right; now left|].
      destruct (IH _ _ H) as [E|Hi]; [now left|right; now right].
Qed.

Lemma load_reference_loop_links (ref_entries : list (string * string))
    (included_papers csv_papers : list row) (m : pdf_map) :
  forall acc result,
    load_reference_loop ref_entries included_papers csv_papers m acc
    = Ok result ->
    forall ref_id link, In (ref_id, link) result ->
      In (ref_id, link) acc
      \/ (In ref_id (map fst ref_entries)
          /\ exists f, In f (map snd m) /\ f <> ""
                       /\ link = (link_prefix ++ f)%string).
Proof.
  induction ref_entries as [|[rid text] rest IH]; intros acc result H;
    simpl in H.
  - inversion H. subst. intros ref_id link Hi. now left.
  - destruct (resolve_reference text included_papers csv_papers m)
      as [target|e] eqn:E; [|discriminate].
    intros ref_id link Hi.
    destruct (IH _ _ H _ _ Hi) as [Ha|(Hk & Hf)].
    + destruct target as [f|]; [|now left].
      destruct (nonempty f) eqn:En; [|now left].
      destruct (dict_set_in_string _ _ _ _ _ Ha) as [[-> ->]|Ha'];
        [|now left].
      right. split; [now left|]. exists f. repeat split.
      * exact (resolve_title_value _ _ _ _ _ E).
      * now apply nonempty_true.
    + right. split; [now right|exact Hf].
Qed.

(** X27: every entry of the reference map that [load_reference_map]
    returns has the number of a parsed reference as its key and, as its
    link, the PDF directory followed by a non-empty file name of the PDF
    map. *)
Theorem load_reference_map_links (ref_entries : list (string * string))
    (included_papers csv_papers : list row) (m : pdf_map)
    (ref_link_map : list (string * string)) (ref_id link : string) :
  load_reference_loop ref_entries included_papers csv_papers m []
  = Ok ref_link_map ->
  In (ref_id, link) ref_link_map ->
  In ref_id (map fst ref_entries)
  /\ exists f, In f (map snd m) /\ f <> ""
               /\ link = (link_prefix ++ f)%string.
Proof.
  intros H Hi.
  destruct (load_reference_loop_links _ _ _ _ _ _ H _ _ Hi) as [[]|Hr].
  exact Hr.
Qed.

Lemma load_reference_map_links_witness :
  In "5" (map fst [("5", ("B. Lee, " ++ String dquote "Cloud Drift Remediation"
                          ++ String dquote ", 2022.")%string)])
  /\ exists f, In f (map snd [(2, "2-Drift_Remediation.pdf")]) /\ f <> ""
               /\ "paper_for_full_text_review/2-Drift_Remediation.pdf"
                  = (link_prefix ++ f)%string.
Proof.
  apply (load_reference_map_links _ [] [] _
           [("5", "paper_for_full_text_review/2-Drift_Remediation.pdf")]).
  - vm_compute. reflexivity.
  - now left.
Defined.

Lemma sub_markers_unlinked (repl : string -> string) (s : string) :
  forall pending,
    (forall rid, In rid (markers_from pending s) ->
                 repl rid = ("[" ++ rid ++ "]")%string) ->
    sub_markers repl pending s
    = ((match pending with
        | Some digits => "[" ++ digits
        | None => ""
        end) ++ s)%string.
Proof.
  induction s as [|c r IH]; intros pending H.
  - destruct pending as [digits|]; simpl; [|reflexivity].
    now rewrite string_app_nil_r.
  - cbn [sub_markers]. cbn [markers_from] in H.
    destruct pending as [digits|].
    + destruct (isdecimal c).
      * rewrite (IH _ H). simpl. now rewrite string_app_assoc.
      * destruct (Ascii.eqb_spec c "]") as [->|N]; cbn [andb] in H |- *.
        -- destruct (nonempty digits).
           ++ rewrite (H digits (or_introl eq_refl)).
              rewrite (IH None (fun rid Hi => H rid (or_intror Hi))).
              simpl. now rewrite string_app_assoc.
           ++ cbn [Ascii.eqb Bool.eqb] in H |- *. now rewrite (IH None H).
        -- destruct (Ascii.eqb_spec c "[") as [->|N'];
             now rewrite (IH _ H).
    + destruct (Ascii.eqb_spec c "[") as [->|N']; now rewrite (IH _ H).
Qed.

(** X28: a line whose citation markers have no link in the reference map
    is left exactly as it is by the reference linking, whatever else the
    map holds. *)
Theorem link_references_unlinked (ref_map : list (string * string))
    (line : string) :
  (forall rid, In rid (markers line) ->
               dict_get String.eqb rid ref_map = None) ->
  link_references ref_map line = line.
Proof.
  intros H. unfold link_references.
  rewrite sub_markers_unlinked; [reflexivity|].
  intros rid Hi. unfold replace_ref. now rewrite (H rid Hi).
Qed.

Lemma link_references_unlinked_witness :
  link_references [("7", "paper_for_full_text_review/7-drift.pdf")]
    "Drift is common [3], see [12] and [x]."
  = "Drift is common [3], see [12] and [x].".
Proof.
  apply link_references_unlinked.
  intros rid H. vm_compute in H.
  destruct H as [<-|[<-|[]]]; reflexivity.
Defined.

(** X29: a row of the higher-priority pool to which the resolver links a
    reference gets, in the papers table, the link to the same file. *)
Theorem pdf_cell_agrees (t : string) (m : pdf_map) (r : row) (f : string) :
  included_row t m r = Hit f -> pdf_cell m r = Ok (table_anchor f).
Proof.
  unfold included_row, pdf_cell.
  destruct (included_test t r); [|discriminate].
  destruct (nonempty _); simpl; [|discriminate].
  destruct (isdigit _); [|discriminate].
  destruct (int _) as [n|]; [|discriminate].
  destruct (dict_get Nat.eqb n m) as [g|]; [|discriminate].
  intros H. inversion H. reflexivity.
Qed.

Lemma pdf_cell_agrees_witness :
  pdf_cell [(3, "3-paper.pdf")] [("Title", ""); ("Paper Number", " 3 ")]
  = Ok (table_anchor "3-paper.pdf").
Proof. apply (pdf_cell_agrees "Drift Detection"). reflexivity. Defined.

End ResolverProperties.
